(** * Tokenizer routing and cache layer (src/lib/tokenizers.ts)

    A shallow embedding of the tokenizer module: the encoding table, the
    process-wide encoder cache, the result normalizers, the two counting
    strategies with their length-based fallback, the router, the chat
    counter and the cache diagnostics.

    JavaScript strings are modelled by [string], read as sequences of
    UTF-16 code units below 256 (one [ascii] per code unit), so that
    [String.length] is [text.length].  Numbers that the module computes
    with are integers and are modelled by [Z]; the timing values, which are
    doubles, stay abstract.  The tiktoken library, the clocks and the
    platform coercions are the fields of a [Platform]. *)

From Stdlib Require Import ZArith QArith Qround List String Ascii Bool Lia.
Import ListNotations.

Set Warnings "-register-all".
Open Scope string_scope.
Open Scope Z_scope.

(* ------------------------------------------------------------------ *)
(** ** Strings *)

(** [String.prototype.toLowerCase] on one code unit below 256: the
    letters A-Z and the Latin-1 capitals U+00C0-U+00DE (U+00D7, the
    multiplication sign, excepted) move up by 32. *)
Definition lower_char (c : ascii) : ascii :=
  let n := N_of_ascii c in
  if ((65 <=? n)%N && (n <=? 90)%N)
     || ((192 <=? n)%N && (n <=? 222)%N && negb (n =? 215)%N)
  then ascii_of_N (n + 32)
  else c.

Fixpoint toLowerCase (s : string) : string :=
  match s with
  | EmptyString => EmptyString
  | String c r => String (lower_char c) (toLowerCase r)
  end.

(** [s.includes(p)]: [p] occurs in [s] as a contiguous substring. *)
Fixpoint includes (s p : string) : bool :=
  String.prefix p s
  || match s with
     | EmptyString => false
     | String _ r => includes r p
     end.

(** [text.length] as an integer. *)
Definition str_length (s : string) : Z := Z.of_nat (String.length s).

(* ------------------------------------------------------------------ *)
(** ** Thrown values and raw values *)

(** A thrown value: the error's name and its message. *)
Inductive Exn : Type :=
| Thrown (name message : string).

Definition TypeError (msg : string) : Exn := Thrown "TypeError" msg.

(** The outcome of an expression that may throw. *)
Inductive Res (A : Type) : Type :=
| Ok (a : A)
| Err (e : Exn).
Arguments Ok {A} a.
Arguments Err {A} e.

Definition res_bind {A B} (r : Res A) (k : A -> Res B) : Res B :=
  match r with
  | Ok a => k a
  | Err e => Err e
  end.

(** [try { body } catch { handler }] for an expression without effects. *)
Definition res_catch {A} (body : Res A) (handler : Exn -> Res A) : Res A :=
  match body with
  | Ok a => Ok a
  | Err e => handler e
  end.

(** The shapes a value of type [any] takes at the encoder boundary.
    A typed array carries its elements; [JsArrayLike] is an object with a
    [length] and indexed properties and no iterator; [JsIterable] is an
    object whose iterator yields [items] and then either finishes or
    throws; [JsObject] is any other object. *)
Inductive JsValue : Type :=
| JsUndefined
| JsNull
| JsBoolean (b : bool)
| JsNumber (n : Z)
| JsString (s : string)
| JsArray (items : list JsValue)
| JsUint8Array (items : list Z)
| JsUint16Array (items : list Z)
| JsUint32Array (items : list Z)
| JsArrayLike (items : list JsValue)
| JsIterable (items : list JsValue) (failure : option Exn)
| JsObject.

Definition Array_isArray (v : JsValue) : bool :=
  match v with
  | JsArray _ => true
  | _ => false
  end.

(** [v instanceof Uint32Array || v instanceof Uint16Array || v instanceof Uint8Array] *)
Definition is_uint_array (v : JsValue) : bool :=
  match v with
  | JsUint8Array _ | JsUint16Array _ | JsUint32Array _ => true
  | _ => false
  end.

Fixpoint string_chars (s : string) : list JsValue :=
  match s with
  | EmptyString => []
  | String c r => JsString (String c EmptyString) :: string_chars r
  end.

(** [Array.from(v)]: throws a [TypeError] on [undefined] and [null],
    iterates an iterable (and rethrows what its iterator throws), copies
    an array-like, and yields the empty array for anything else. *)
Definition Array_from (v : JsValue) : Res (list JsValue) :=
  match v with
  | JsUndefined | JsNull =>
      Err (TypeError "undefined is not iterable")
  | JsBoolean _ | JsNumber _ | JsObject => Ok []
  | JsString s => Ok (string_chars s)
  | JsArray items => Ok items
  | JsUint8Array items | JsUint16Array items | JsUint32Array items =>
      Ok (map JsNumber items)
  | JsArrayLike items => Ok items
  | JsIterable items None => Ok items
  | JsIterable _ (Some e) => Err e
  end.

(** [normalizeEncodeResult] (lines 37-48). *)
Definition normalizeEncodeResult (encResult : JsValue) : Res (list JsValue) :=
  match encResult with
  | JsArray items => Ok items
  | _ =>
      if is_uint_array encResult then Array_from encResult
      else res_catch (Array_from encResult) (fun _ => Ok [])
  end.

(** [normalizeDecodeResult] (lines 50-60), over the platform's UTF-8
    decoder and its [String(...)] coercion. *)
Definition normalizeDecodeResult
    (utf8_decode : list Z -> string) (String_of : JsValue -> Res string)
    (decResult : JsValue) : Res string :=
  match decResult with
  | JsString s => Ok s
  | JsUint8Array bytes => Ok (utf8_decode bytes)
  | _ => res_catch (String_of decResult) (fun _ => Ok "")
  end.

(** [new Uint32Array(arr)]: every element goes through ToNumber and is
    then reduced modulo 2^32.  A number needs no conversion; the
    conversion of other values is the platform's. *)
Definition ToUint32 (ToNumber : JsValue -> Res Z) (v : JsValue) : Res Z :=
  match v with
  | JsNumber n => Ok (n mod 2 ^ 32)
  | _ => res_bind (ToNumber v) (fun n => Ok (n mod 2 ^ 32))
  end.

Fixpoint Uint32Array_new (ToNumber : JsValue -> Res Z) (arr : list JsValue)
  : Res (list Z) :=
  match arr with
  | [] => Ok []
  | v :: r =>
      res_bind (ToUint32 ToNumber v) (fun x =>
      res_bind (Uint32Array_new ToNumber r) (fun xs => Ok (x :: xs)))
  end.

(* ------------------------------------------------------------------ *)
(** ** The encoding table *)

Inductive TiktokenEncoding : Type :=
| cl100k_base
| o200k_base
| p50k_base
| r50k_base.

(** [ENCODING_MAP] (lines 65-81), its own properties in source order. *)
Definition ENCODING_MAP : list (string * TiktokenEncoding) :=
  [ ("gpt-4", cl100k_base);
    ("gpt-4-turbo", cl100k_base);
    ("gpt-4o", o200k_base);
    ("gpt-4o-mini", o200k_base);
    ("gpt-3.5-turbo", cl100k_base);
    ("gpt-3.5-turbo-16k", cl100k_base);
    ("text-embedding-ada-002", cl100k_base);
    ("text-embedding-3-small", cl100k_base);
    ("text-embedding-3-large", cl100k_base);
    ("text-davinci-003", p50k_base);
    ("text-davinci-002", p50k_base);
    ("davinci", r50k_base);
    ("curie", r50k_base);
    ("babbage", r50k_base);
    ("ada", r50k_base) ].

(** The table is an object literal, so its prototype is
    [Object.prototype]; these are the property names it inherits, each
    bound to a function (or, for [__proto__], to the prototype object). *)
Definition Object_prototype_names : list string :=
  [ "constructor"; "__defineGetter__"; "__defineSetter__"; "hasOwnProperty";
    "__lookupGetter__"; "__lookupSetter__"; "isPrototypeOf";
    "propertyIsEnumerable"; "toString"; "valueOf"; "__proto__";
    "toLocaleString" ].

(** What a property read [ENCODING_MAP[k]] evaluates to. *)
Inductive PropValue : Type :=
| PUndefined
| PEncoding (e : TiktokenEncoding)
| PInherited (name : string).

Fixpoint own_property (k : string) (tbl : list (string * TiktokenEncoding))
  : option TiktokenEncoding :=
  match tbl with
  | [] => None
  | (k', e) :: r => if String.eqb k k' then Some e else own_property k r
  end.

Definition mem_string (k : string) (l : list string) : bool :=
  existsb (String.eqb k) l.

(** [ENCODING_MAP[k]]: an own property first, then the prototype. *)
Definition ENCODING_MAP_get (k : string) : PropValue :=
  match own_property k ENCODING_MAP with
  | Some e => PEncoding e
  | None =>
      if mem_string k Object_prototype_names then PInherited k
      else PUndefined
  end.

Definition truthy (v : PropValue) : bool :=
  match v with
  | PUndefined => false
  | _ => true
  end.

(** [a || b] on property values. *)
Definition js_or (a b : PropValue) : PropValue :=
  if truthy a then a else b.

(** The constant [encodingName] of [loadTiktoken] (line 95). *)
Definition encodingName (model : string) : PropValue :=
  let key := toLowerCase model in
  js_or (ENCODING_MAP_get key)
        (js_or (ENCODING_MAP_get model) (PEncoding cl100k_base)).

(* ------------------------------------------------------------------ *)
(** ** The platform *)

(** What the module imports and calls: tiktoken's [get_encoding] and the
    methods of an encoder, the two clocks, and the coercions of the
    language.  [Ext] is the state of everything outside the module.
    An encoder's [encode] and [decode] are functions of the encoder and
    their argument; they may throw (on a disallowed special token, for
    instance).  [Num] is the type of timing values, [num_sub] their
    subtraction and [toFixed2] is [parseFloat(x.toFixed(2))]. *)
Record Platform : Type := {
  Ext : Type;
  Tiktoken : Type;
  Num : Type;
  get_encoding : PropValue -> Ext -> Res Tiktoken * Ext;
  encode : Tiktoken -> string -> Res JsValue;
  decode : Tiktoken -> list Z -> Res JsValue;
  has_free : Tiktoken -> bool;
  free : Tiktoken -> Ext -> Res unit * Ext;
  performance_now : Ext -> Num * Ext;
  Date_now : Ext -> Z * Ext;
  num_sub : Num -> Num -> Num;
  toFixed2 : Num -> Num;
  utf8_decode : list Z -> string;
  String_of : JsValue -> Res string;
  ToNumber : JsValue -> Res Z
}.

(** A platform for running the module on concrete inputs: the outside
    state counts the encoders handed out and serves as both clocks, an
    encoder is its serial number, [get_encoding] succeeds on the four
    scheme names and throws on anything else, a text is encoded one token
    per code unit and decoded back byte by byte. *)
Definition toy_get_encoding (name : PropValue) (x : nat) : Res nat * nat :=
  match name with
  | PEncoding _ => (Ok x, S x)
  | _ => (Err (Thrown "Error" "Invalid encoding"), x)
  end.

Definition toy_encode (_ : nat) (text : string) : Res JsValue :=
  Ok (JsUint32Array
        (map (fun c => Z.of_N (N_of_ascii c)) (list_ascii_of_string text))).

Definition toy_utf8_decode (bytes : list Z) : string :=
  string_of_list_ascii (map (fun b => ascii_of_N (Z.to_N b)) bytes).

Definition toy : Platform := {|
  Ext := nat;
  Tiktoken := nat;
  Num := Z;
  get_encoding := toy_get_encoding;
  encode := toy_encode;
  decode := fun _ tokens => Ok (JsUint8Array tokens);
  has_free := fun _ => true;
  free := fun _ x => (Ok tt, x);
  performance_now := fun x => (Z.of_nat x, S x);
  Date_now := fun x => (Z.of_nat x, S x);
  num_sub := Z.sub;
  toFixed2 := fun t => t;
  utf8_decode := toy_utf8_decode;
  String_of := fun _ => Ok "[object Object]";
  ToNumber := fun _ => Ok 0
|}.

(** The same platform with an encoder provider that is not ready at
    first: [get_encoding] throws as long as the outside state is 0 and
    works as above afterwards. *)
Definition flaky_get_encoding (name : PropValue) (x : nat) : Res nat * nat :=
  match x with
  | O => (Err (Thrown "Error" "tiktoken: WASM binary not initialized"), 1%nat)
  | S _ => toy_get_encoding name x
  end.

Definition toy_flaky : Platform := {|
  Ext := nat;
  Tiktoken := nat;
  Num := Z;
  get_encoding := flaky_get_encoding;
  encode := toy_encode;
  decode := fun _ tokens => Ok (JsUint8Array tokens);
  has_free := fun _ => true;
  free := fun _ x => (Ok tt, x);
  performance_now := fun x => (Z.of_nat x, x);
  Date_now := fun x => (Z.of_nat x, x);
  num_sub := Z.sub;
  toFixed2 := fun t => t;
  utf8_decode := toy_utf8_decode;
  String_of := fun _ => Ok "[object Object]";
  ToNumber := fun _ => Ok 0
|}.

(** The toy platform with an encoder that, as tiktoken does by default,
    throws on a text that contains the special token. *)
Definition strict_encode (h : nat) (text : string) : Res JsValue :=
  if includes text "<|endoftext|>"
  then Err (Thrown "Error"
              "The text contains a special token that is not allowed")
  else toy_encode h text.

Definition toy_strict : Platform := {|
  Ext := nat;
  Tiktoken := nat;
  Num := Z;
  get_encoding := toy_get_encoding;
  encode := strict_encode;
  decode := fun _ tokens => Ok (JsUint8Array tokens);
  has_free := fun _ => true;
  free := fun _ x => (Ok tt, x);
  performance_now := fun x => (Z.of_nat x, S x);
  Date_now := fun x => (Z.of_nat x, S x);
  num_sub := Z.sub;
  toFixed2 := fun t => t;
  utf8_decode := toy_utf8_decode;
  String_of := fun _ => Ok "[object Object]";
  ToNumber := fun _ => Ok 0
|}.

(* ------------------------------------------------------------------ *)
(** ** Insertion-ordered maps

    A JavaScript [Map] keeps its entries in the order in which their keys
    were first set; the cache is a list of key/value pairs in that
    order. *)

Fixpoint Map_get {V} (k : string) (m : list (string * V)) : option V :=
  match m with
  | [] => None
  | (k', v) :: r => if String.eqb k k' then Some v else Map_get k r
  end.

Definition Map_has {V} (k : string) (m : list (string * V)) : bool :=
  match Map_get k m with
  | Some _ => true
  | None => false
  end.

(** [m.set(k, v)]: a present key keeps its place, a new one goes last. *)
Fixpoint Map_set {V} (k : string) (v : V) (m : list (string * V))
  : list (string * V) :=
  match m with
  | [] => [(k, v)]
  | (k', v') :: r =>
      if String.eqb k k' then (k', v) :: r else (k', v') :: Map_set k v r
  end.

Definition Map_delete {V} (k : string) (m : list (string * V))
  : list (string * V) :=
  filter (fun kv => negb (String.eqb k (fst kv))) m.

Definition Map_keys {V} (m : list (string * V)) : list string := map fst m.
Definition Map_values {V} (m : list (string * V)) : list V := map snd m.
Definition Map_size {V} (m : list (string * V)) : Z :=
  Z.of_nat (List.length m).

(** [Math.min(...xs)] and what [oldestEntry] can hold. *)
Inductive NumberOrNull : Type :=
| Null
| Number (z : Z)
| Infinity.

Definition Math_min (xs : list Z) : NumberOrNull :=
  match xs with
  | [] => Infinity
  | x :: r => Number (fold_left Z.min r x)
  end.

(* ------------------------------------------------------------------ *)
(** ** File names, formats and estimates (src/lib/formatUtils.ts,
       src/components/FileUpload.tsx) *)

(** [s.split(sep)] for a one-character separator: the segments between
    the separators, in order; there is always at least one. *)
Fixpoint split (s : string) (sep : ascii) : list string :=
  match s with
  | EmptyString => [EmptyString]
  | String c r =>
      if Ascii.eqb c sep then EmptyString :: split r sep
      else match split r sep with
           | seg :: segs => String c seg :: segs
           | [] => [String c EmptyString]
           end
  end.

(** The value of [arr.pop()]: the last element, [undefined] ([None]) for
    an empty array. *)
Fixpoint Array_pop {A} (arr : list A) : option A :=
  match arr with
  | [] => None
  | [x] => Some x
  | _ :: r => Array_pop r
  end.

(** [filename.split('.').pop()?.toLowerCase()] (formatUtils.ts line 34,
    FileUpload.tsx line 24). *)
Definition file_extension (filename : string) : option string :=
  option_map toLowerCase (Array_pop (split filename ".")).

(** [extension === s] *)
Definition ext_is (extension : option string) (s : string) : bool :=
  match extension with
  | Some e => String.eqb e s
  | None => false
  end.

Inductive FileFormat : Type :=
| FJson
| FYaml
| FToml
| FXml
| FText
| FUnknown.

(** [estimateTokens] (formatUtils.ts lines 23-25). *)
Definition estimateTokens (text : string) : Z :=
  Qceiling (inject_Z (str_length text) / 4).

(** What [parseString(content, callback)] of xml2js does during the call:
    it hands the callback a result, or an error, or it throws. *)
Inductive XmlOutcome (D : Type) : Type :=
| XmlParsed (d : D)
| XmlFailed (e : Exn)
| XmlThrown (e : Exn).
Arguments XmlParsed {D} d.
Arguments XmlFailed {D} e.
Arguments XmlThrown {D} e.

(** The parsers and printers that formatUtils.ts imports, [JSON] and
    the double arithmetic of [estimateCost].  [Data] is the type of parsed
    values; [JSON.stringify] returns [undefined] ([None]) for a value
    that has no JSON text. *)
Record Formats : Type := {
  Data : Type;
  Double : Type;
  JSON_parse : string -> Res Data;
  yaml_load : string -> Res Data;
  TOML_parse : string -> Res Data;
  parseString : string -> XmlOutcome Data;
  text_object : string -> Data;
  JSON_stringify : Data -> Res (option string);
  JSON_stringify_pretty : Data -> Res (option string);
  yaml_dump : Data -> Res string;
  TOML_stringify : Data -> Res string;
  double_of_Z : Z -> Double;
  double_div : Double -> Double -> Double;
  double_mul : Double -> Double -> Double;
  double_0_002 : Double
}.

(** A [File]: its name and what [file.text()] resolves to. *)
Record File : Type := {
  file_name : string;
  file_text : string
}.

(** [validExtensions] (FileUpload.tsx line 23). *)
Definition validExtensions : list string :=
  [".json"; ".yaml"; ".yml"; ".toml"; ".xml"; ".txt"].

(** What a drop leads to: nothing, the "Invalid file type" toast, or
    [onFileSelect(file)]. *)
Inductive DropOutcome : Type :=
| DropIgnored
| DropInvalid
| DropSelected (file : File).

(** [handleDrop] (FileUpload.tsx lines 13-38) on the dropped files. *)
Definition handleDrop (isAnalyzing : bool) (files : list File) : DropOutcome :=
  if isAnalyzing then DropIgnored
  else
    match files with
    | [] => DropIgnored
    | file :: _ =>
        let extension :=
          "." ++ match file_extension (file_name file) with
                 | Some e => e
                 | None => "undefined"
                 end in
        if mem_string extension validExtensions then DropSelected file
        else DropInvalid
    end.

(** [handleFileInput] (FileUpload.tsx lines 40-45): the file handed to
    [onFileSelect], if any. *)
Definition handleFileInput (files : option (list File)) : option File :=
  match files with
  | Some (file :: _) => Some file
  | _ => None
  end.

(** Parsers and printers for running formatUtils.ts on concrete inputs:
    a parsed value is the text it came from; JSON texts start with a
    brace, XML texts with an angle bracket, TOML texts contain " = ",
    and every text that does not start with an angle bracket is YAML; the
    empty value has no JSON text. *)
Definition toy_formats : Formats := {|
  Data := string;
  Double := Z;
  JSON_parse := fun s =>
    if String.prefix "{" s then Ok s
    else Err (Thrown "SyntaxError" "Unexpected token");
  yaml_load := fun s =>
    if String.prefix "<" s then Err (Thrown "YAMLException" "bad indentation")
    else Ok s;
  TOML_parse := fun s =>
    if includes s " = " then Ok s
    else Err (Thrown "TomlError" "Invalid TOML document");
  parseString := fun s =>
    if String.prefix "<" s then XmlParsed s
    else XmlFailed (Thrown "Error" "Non-whitespace before first tag");
  text_object := fun s => s;
  JSON_stringify := fun d =>
    if String.eqb d "" then Ok None else Ok (Some d);
  JSON_stringify_pretty := fun d =>
    if String.eqb d "" then Ok None else Ok (Some (d ++ " "));
  yaml_dump := fun d => Ok d;
  TOML_stringify := fun d =>
    if includes d " = " then Ok d
    else Err (Thrown "TypeError" "stringify can only be called with an object");
  double_of_Z := fun z => z;
  double_div := Z.div;
  double_mul := Z.mul;
  double_0_002 := 2
|}.

(* ------------------------------------------------------------------ *)
(** ** The module *)

Section Tokenizers.

Variable P : Platform.

Record TiktokenCacheEntry : Type := {
  encoding : Tiktoken P;
  model : string;
  loadedAt : Z
}.

(** The object stored in [llamaTokenizerCache]: its two closures share
    the one encoder they captured. *)
Record LlamaTokenizer : Type := {
  llama_encoding : Tiktoken P
}.

Record TokenizerResult : Type := {
  tokens : Z;
  timeMs : Num P
}.

Record ChatMessage : Type := {
  role : string;
  content : string
}.

Record CacheStats : Type := {
  tiktokenEntries : Z;
  llamaLoaded : bool;
  models : list string;
  oldestEntry : NumberOrNull
}.

(** The module's two variables and the world outside it. *)
Record World : Type := {
  tiktokenCache : list (string * TiktokenCacheEntry);
  llamaTokenizerCache : option LlamaTokenizer;
  ext : Ext P
}.

Definition set_tiktokenCache (c : list (string * TiktokenCacheEntry))
    (w : World) : World :=
  {| tiktokenCache := c;
     llamaTokenizerCache := llamaTokenizerCache w;
     ext := ext w |}.

Definition set_llamaTokenizerCache (l : option LlamaTokenizer)
    (w : World) : World :=
  {| tiktokenCache := tiktokenCache w;
     llamaTokenizerCache := l;
     ext := ext w |}.

Definition set_ext (x : Ext P) (w : World) : World :=
  {| tiktokenCache := tiktokenCache w;
     llamaTokenizerCache := llamaTokenizerCache w;
     ext := x |}.

(** A computation of the module: it ends with a value or a thrown error
    and leaves a world in either case. *)
Definition M (A : Type) : Type := World -> Res A * World.

Definition ret {A} (a : A) : M A := fun w => (Ok a, w).

Definition throw {A} (e : Exn) : M A := fun w => (Err e, w).

Definition bind {A B} (m : M A) (k : A -> M B) : M B :=
  fun w =>
    match m w with
    | (Ok a, w') => k a w'
    | (Err e, w') => (Err e, w')
    end.

(** [try { body } catch (err) { handler }]: what [body] did to the world
    before it threw stays done. *)
Definition try_catch {A} (body : M A) (handler : Exn -> M A) : M A :=
  fun w =>
    match body w with
    | (Ok a, w') => (Ok a, w')
    | (Err e, w') => handler e w'
    end.

Definition lift_res {A} (r : Res A) : M A := fun w => (r, w).

Definition ext_call {A} (f : Ext P -> Res A * Ext P) : M A :=
  fun w => let (r, x) := f (ext w) in (r, set_ext x w).

Definition ext_read {A} (f : Ext P -> A * Ext P) : M A :=
  fun w => let (a, x) := f (ext w) in (Ok a, set_ext x w).

Definition read {A} (f : World -> A) : M A := fun w => (Ok (f w), w).

Definition update (f : World -> World) : M unit := fun w => (Ok tt, f w).

Notation "x <- m ;; k" := (bind m (fun x => k))
  (at level 61, m at next level, right associativity).
Notation "m ;;; k" := (bind m (fun _ => k))
  (at level 61, right associativity).

(** [nowMs] (lines 33-35). *)
Definition nowMs : M (Num P) := ext_read (performance_now P).

(** [parseFloat((nowMs() - start).toFixed(2))] *)
Definition elapsed (start : Num P) : M (Num P) :=
  t <- nowMs ;;
  ret (toFixed2 P (num_sub P t start)).

Definition array_length {A} (l : list A) : Z := Z.of_nat (List.length l).

(** [loadTiktoken] (lines 86-110).  [console.error] leaves no trace in
    the world. *)
Definition loadTiktoken (model : string) : M (Tiktoken P) :=
  start <- nowMs ;;
  let key := toLowerCase model in
  cache <- read tiktokenCache ;;
  if Map_has key cache then
    match Map_get key cache with
    | Some entry => ret (encoding entry)
    | None => throw (TypeError "Cannot read properties of undefined")
    end
  else
    try_catch
      (let encodingName := encodingName model in
       encoding <- ext_call (get_encoding P encodingName) ;;
       now <- ext_read (Date_now P) ;;
       update (fun w =>
         set_tiktokenCache
           (Map_set key
              {| encoding := encoding; model := model; loadedAt := now |}
              (tiktokenCache w)) w) ;;;
       ret encoding)
      (fun err => throw err).

(** The [encode] closure of the Llama tokenizer (line 131). *)
Definition llama_encode (t : LlamaTokenizer) (text : string)
  : Res (list JsValue) :=
  res_bind (encode P (llama_encoding t) text) normalizeEncodeResult.

(** The [decode] closure of the Llama tokenizer (lines 132-141). *)
Definition llama_decode (t : LlamaTokenizer) (toks : list JsValue)
  : Res string :=
  res_catch
    (res_bind (Uint32Array_new (ToNumber P) toks) (fun uint32 =>
     res_bind (decode P (llama_encoding t) uint32) (fun decoded =>
     normalizeDecodeResult (utf8_decode P) (String_of P) decoded)))
    (fun _ => Ok "").

(** [loadLlamaTokenizer] (lines 124-145). *)
Definition loadLlamaTokenizer : M LlamaTokenizer :=
  cached <- read llamaTokenizerCache ;;
  match cached with
  | Some t => ret t
  | None =>
      encoding <- ext_call (get_encoding P (PEncoding cl100k_base)) ;;
      let t := {| llama_encoding := encoding |} in
      update (set_llamaTokenizerCache (Some t)) ;;;
      ret t
  end.

(** [Math.max(1, Math.ceil(text.length / 4))] (lines 159 and 174), the
    quotient taken in the rationals. *)
Definition fallback (text : string) : Z :=
  Z.max 1 (Qceiling (inject_Z (str_length text) / 4)).

(** [countTokensWithTiktoken] (lines 150-162). *)
Definition countTokensWithTiktoken (text model : string) : M TokenizerResult :=
  start <- nowMs ;;
  try_catch
    (encoding <- loadTiktoken model ;;
     raw <- lift_res (encode P encoding text) ;;
     toks <- lift_res (normalizeEncodeResult raw) ;;
     t <- elapsed start ;;
     ret {| tokens := array_length toks; timeMs := t |})
    (fun _ =>
       let fallback := fallback text in
       t <- elapsed start ;;
       ret {| tokens := fallback; timeMs := t |}).

(** [countTokensWithLlama] (lines 167-177). *)
Definition countTokensWithLlama (text : string) : M TokenizerResult :=
  start <- nowMs ;;
  try_catch
    (tokenizer <- loadLlamaTokenizer ;;
     toks <- lift_res (llama_encode tokenizer text) ;;
     t <- elapsed start ;;
     ret {| tokens := array_length toks; timeMs := t |})
    (fun _ =>
       let fallback := fallback text in
       t <- elapsed start ;;
       ret {| tokens := fallback; timeMs := t |}).

Definition OPENAI_PREFIXES : list string :=
  ["gpt"; "text-"; "davinci"; "curie"; "babbage"; "ada"].

Definition LLAMA_PREFIXES : list string :=
  ["llama"; "mistral"; "mixtral"; "codellama"; "vicuna"; "alpaca"].

(** [countTokensAuto] (lines 185-197). *)
Definition countTokensAuto (text model : string) : M TokenizerResult :=
  start <- nowMs ;;
  let lower := toLowerCase model in
  let isOpenAI := existsb (fun p => includes lower p) OPENAI_PREFIXES in
  let isLlama := existsb (fun p => includes lower p) LLAMA_PREFIXES in
  res <- (if isOpenAI then countTokensWithTiktoken text model
          else if isLlama then countTokensWithLlama text
          else countTokensWithTiktoken text "gpt-4") ;;
  t <- elapsed start ;;
  ret {| tokens := tokens res; timeMs := t |}.

(** The body of the [for] loop of [countChatTokens] (lines 207-211), run
    over the messages that remain with the total so far. *)
Fixpoint chat_loop (encoding : Tiktoken P) (messages : list ChatMessage)
    (total : Z) : Res Z :=
  match messages with
  | [] => Ok total
  | m :: rest =>
      let total := total + 4 in
      res_bind (encode P encoding (role m)) (fun raw =>
      res_bind (normalizeEncodeResult raw) (fun r =>
      let total := total + array_length r in
      res_bind (encode P encoding (content m)) (fun raw =>
      res_bind (normalizeEncodeResult raw) (fun c =>
      let total := total + array_length c in
      chat_loop encoding rest total))))
  end.

(** A parameter with a default value. *)
Definition default_arg {A} (d : A) (a : option A) : A :=
  match a with
  | Some x => x
  | None => d
  end.

(** [countChatTokens] (lines 204-213). *)
Definition countChatTokens (messages : list ChatMessage)
    (model : option string) : M Z :=
  let model := default_arg "gpt-4" model in
  encoding <- loadTiktoken model ;;
  let total := 3 in
  lift_res (chat_loop encoding messages total).

(** [getCacheStats] (lines 218-227). *)
Definition getCacheStats : M CacheStats :=
  cache <- read tiktokenCache ;;
  llama <- read llamaTokenizerCache ;;
  let models := Map_keys cache in
  let oldest :=
    if array_length models =? 0 then Null
    else Math_min (map loadedAt (Map_values cache)) in
  ret {| tiktokenEntries := Map_size cache;
         llamaLoaded := match llama with Some _ => true | None => false end;
         models := models;
         oldestEntry := oldest |}.

(** One turn of the loop of [clearTokenizerCache] (lines 234-241): the
    encoder is released when it has a [free] method, a failure to
    release is swallowed, and the key is deleted. *)
Definition clear_entry (kv : string * TiktokenCacheEntry) : M unit :=
  let (k, entry) := kv in
  try_catch
    (if has_free P (encoding entry)
     then ext_call (free P (encoding entry))
     else ret tt)
    (fun _ => ret tt) ;;;
  update (fun w => set_tiktokenCache (Map_delete k (tiktokenCache w)) w).

(** The loop over [tiktokenCache.entries()].  The only change made to the
    map while it is iterated is the deletion of the entry just visited,
    so the iterator visits the entries the map had at the start, in
    order. *)
Fixpoint clear_loop (entries : list (string * TiktokenCacheEntry)) : M unit :=
  match entries with
  | [] => ret tt
  | kv :: rest => clear_entry kv ;;; clear_loop rest
  end.

(** [clearTokenizerCache] (lines 232-244). *)
Definition clearTokenizerCache : M unit :=
  entries <- read tiktokenCache ;;
  clear_loop entries ;;;
  update (set_llamaTokenizerCache None).

(** [assertEncodeDecodeRoundtrip] (lines 249-261). *)
Definition assertEncodeDecodeRoundtrip (text : string)
    (model : option string) : M bool :=
  let model := default_arg "gpt-4" model in
  try_catch
    (enc <- loadTiktoken model ;;
     raw <- lift_res (encode P enc text) ;;
     arr <- lift_res (normalizeEncodeResult raw) ;;
     maybeUint32 <- lift_res (Uint32Array_new (ToNumber P) arr) ;;
     decodedRaw <- lift_res (decode P enc maybeUint32) ;;
     decoded <- lift_res
       (normalizeDecodeResult (utf8_decode P) (String_of P) decodedRaw) ;;
     ret (String.eqb decoded text))
    (fun _ => ret false).

(** The module as it is when it has just been loaded. *)
Definition initial (x : Ext P) : World :=
  {| tiktokenCache := []; llamaTokenizerCache := None; ext := x |}.

(* ------------------------------------------------------------------ *)
(** ** formatUtils.ts *)

Variable Fmt : Formats.

Record FormatResult : Type := {
  fr_format : string;
  fr_content : string;
  fr_tokens : Z;
  fr_time : Num P;
  fr_cost : Double Fmt
}.

Record AnalysisResult : Type := {
  detectedFormat : FileFormat;
  originalTokens : Z;
  results : list FormatResult;
  totalTime : Num P
}.

(** [estimateCost] (lines 28-30): [(tokens / 1000) * 0.002] in doubles. *)
Definition estimateCost (toks : Z) : Double Fmt :=
  double_mul Fmt (double_div Fmt (double_of_Z Fmt toks) (double_of_Z Fmt 1000))
    (double_0_002 Fmt).

(** [detectFormat] (lines 33-69). *)
Definition detectFormat (content filename : string) : FileFormat :=
  let extension := file_extension filename in
  if ext_is extension "json" then FJson
  else if ext_is extension "yaml" || ext_is extension "yml" then FYaml
  else if ext_is extension "toml" then FToml
  else if ext_is extension "xml" then FXml
  else
    match JSON_parse Fmt content with
    | Ok _ => FJson
    | Err _ =>
        match yaml_load Fmt content with
        | Ok _ => FYaml
        | Err _ =>
            match TOML_parse Fmt content with
            | Ok _ => FToml
            | Err _ =>
                match parseString Fmt content with
                | XmlParsed _ => FXml
                | XmlFailed _ | XmlThrown _ => FText
                end
            end
        end
    end.

(** [parseContent] (lines 72-97); a rejected promise is an error. *)
Definition parseContent (content : string) (format : FileFormat)
  : Res (Data Fmt) :=
  match format with
  | FJson => JSON_parse Fmt content
  | FYaml => yaml_load Fmt content
  | FToml => TOML_parse Fmt content
  | FXml =>
      match parseString Fmt content with
      | XmlParsed result => Ok result
      | XmlFailed err => Err err
      | XmlThrown err => Err err
      end
  | FText => Ok (text_object Fmt content)
  | FUnknown => Err (Thrown "Error" "Unknown format")
  end.

(** [convertToFormats] (lines 100-128): the properties of [formats] in
    the order in which they are assigned. *)
Definition convertToFormats (data : Data Fmt) : list (string * option string) :=
  let formats := [] in
  let formats :=
    Map_set "JSON (Minified)"
      (match JSON_stringify Fmt data with
       | Ok s => s
       | Err _ => Some "Error converting to JSON"
       end) formats in
  let formats :=
    Map_set "JSON (Pretty)"
      (match JSON_stringify_pretty Fmt data with
       | Ok s => s
       | Err _ => Some "Error converting to JSON"
       end) formats in
  let formats :=
    Map_set "YAML"
      (match yaml_dump Fmt data with
       | Ok s => Some s
       | Err _ => Some "Error converting to YAML"
       end) formats in
  let formats :=
    Map_set "TOML"
      (match TOML_stringify Fmt data with
       | Ok s => Some s
       | Err _ =>
           Some "Error converting to TOML (complex structure not supported)"
       end) formats in
  formats.

(** The loop of [analyzeFile] (lines 147-160) over the entries that
    remain, with the rows pushed so far.  A converted content that is
    [undefined] makes [estimateTokens] throw on its [length]. *)
Fixpoint analyze_loop (entries : list (string * option string))
    (rows : list FormatResult) : M (list FormatResult) :=
  match entries with
  | [] => ret rows
  | (formatName, convertedContent) :: rest =>
      formatStartTime <- nowMs ;;
      match convertedContent with
      | None => throw (TypeError "Cannot read properties of undefined")
      | Some convertedContent =>
          let toks := estimateTokens convertedContent in
          t <- nowMs ;;
          let formatTime := num_sub P t formatStartTime in
          let cost := estimateCost toks in
          analyze_loop rest
            (rows ++ [ {| fr_format := formatName;
                          fr_content := convertedContent;
                          fr_tokens := toks;
                          fr_time := formatTime;
                          fr_cost := cost |} ])%list
      end
  end.

(** [analyzeFile] (lines 131-170). *)
Definition analyzeFile (file : File) : M AnalysisResult :=
  startTime <- nowMs ;;
  let content := file_text file in
  let detectedFormat := detectFormat content (file_name file) in
  let originalTokens := estimateTokens content in
  parsedData <- lift_res (parseContent content detectedFormat) ;;
  let conversions := convertToFormats parsedData in
  rows <- analyze_loop conversions [] ;;
  t <- nowMs ;;
  let totalTime := num_sub P t startTime in
  ret {| detectedFormat := detectedFormat;
         originalTokens := originalTokens;
         results := rows;
         totalTime := totalTime |}.


(* ------------------------------------------------------------------ *)
(** ** What the specification talks about *)

(** [p] occurs in [s]. *)
Definition occurs_in (p s : string) : Prop :=
  exists before after, s = before ++ p ++ after.

Definition contains_any (s : string) (ps : list string) : Prop :=
  exists p, In p ps /\ occurs_in p s.

(** The two families of the router, as the specification lists them. *)
Definition openai_family : list string :=
  ["gpt"; "text-"; "davinci"; "curie"; "babbage"; "ada"].

Definition llama_family : list string :=
  ["llama"; "mistral"; "mixtral"; "codellama"; "vicuna"; "alpaca"].

(** The two counting strategies: the exact one, for an identifier, and
    the approximate one. *)
Inductive Strategy : Type :=
| Exact (model : string)
| Approximate.

Definition run_strategy (s : Strategy) (text : string) : M TokenizerResult :=
  match s with
  | Exact model => countTokensWithTiktoken text model
  | Approximate => countTokensWithLlama text
  end.

(** The dispatch rule of the router: the OpenAI family first, the Llama
    family second, the exact strategy for "gpt-4" otherwise. *)
Inductive dispatch (model : string) : Strategy -> Prop :=
| dispatch_openai :
    contains_any (toLowerCase model) openai_family ->
    dispatch model (Exact model)
| dispatch_llama :
    ~ contains_any (toLowerCase model) openai_family ->
    contains_any (toLowerCase model) llama_family ->
    dispatch model Approximate
| dispatch_default :
    ~ contains_any (toLowerCase model) openai_family ->
    ~ contains_any (toLowerCase model) llama_family ->
    dispatch model (Exact "gpt-4").

(** A step of a strategy fails, started in [w0] and leaving [w1]: the
    encoder cannot be loaded, or it throws on the text. *)
Inductive strategy_fails (text : string) : Strategy -> World -> World -> Prop :=
| exact_load_fails model w0 w1 e :
    loadTiktoken model w0 = (Err e, w1) ->
    strategy_fails text (Exact model) w0 w1
| exact_encode_fails model w0 w1 h e :
    loadTiktoken model w0 = (Ok h, w1) ->
    encode P h text = Err e ->
    strategy_fails text (Exact model) w0 w1
| approximate_load_fails w0 w1 e :
    loadLlamaTokenizer w0 = (Err e, w1) ->
    strategy_fails text Approximate w0 w1
| approximate_encode_fails w0 w1 t e :
    loadLlamaTokenizer w0 = (Ok t, w1) ->
    encode P (llama_encoding t) text = Err e ->
    strategy_fails text Approximate w0 w1.

(** [c] is the ceiling of [n / 4]. *)
Definition ceiling_of_quarter (n c : Z) : Prop :=
  4 * (c - 1) < n <= 4 * c.

(** The encoder does not throw on [s]. *)
Definition encodes (h : Tiktoken P) (s : string) : Prop :=
  exists raw, encode P h s = Ok raw.

(** The normalized encoded length of [s] (0 where the encoder throws). *)
Definition token_count (h : Tiktoken P) (s : string) : Z :=
  match res_bind (encode P h s) normalizeEncodeResult with
  | Ok l => array_length l
  | Err _ => 0
  end.


(** The keys of the cache are pairwise distinct and each is the
    lower-cased identifier of its entry. *)
Definition cache_inv (w : World) : Prop :=
  NoDup (Map_keys (tiktokenCache w)) /\
  Forall (fun kv => fst kv = toLowerCase (model (snd kv))) (tiktokenCache w).

(** [o] is the least of [ts], or [null] when there is none. *)
Definition least_or_null (ts : list Z) (o : NumberOrNull) : Prop :=
  match ts with
  | [] => o = Null
  | _ :: _ => exists z, o = Number z /\ In z ts /\ Forall (Z.le z) ts
  end.

(** How many entries of a map have the key [k]. *)
Definition entries_for {V} (k : string) (m : list (string * V)) : nat :=
  List.length (filter (fun kv => String.eqb k (fst kv)) m).

Definition uint32 (z : Z) : Prop := 0 <= z < 2 ^ 32.

(** The encoder turns the text into tokens and these tokens into
    [bytes]. *)
Definition encoder_yields (h : Tiktoken P) (text : string) (bytes : list Z)
  : Prop :=
  exists toks,
    encode P h text = Ok (JsUint32Array toks) /\
    Forall uint32 toks /\
    decode P h toks = Ok (JsUint8Array bytes).

(** The UTF-8 bytes of one code unit below 256. *)
Definition utf8_bytes (c : ascii) : list Z :=
  let n := Z.of_N (N_of_ascii c) in
  if n <? 128 then [n] else [192 + n / 64; 128 + n mod 64].

(** The text contains only characters within the vocabulary of the
    encoder: the encoder turns each of its characters, taken alone, into
    tokens and these tokens back into the UTF-8 bytes of the
    character. *)
Definition chars_in_vocabulary (h : Tiktoken P) (text : string) : Prop :=
  Forall (fun c => encoder_yields h (String c EmptyString) (utf8_bytes c))
    (list_ascii_of_string text).

(** The worlds the module can be in: those its exported functions lead
    to from the initial one. *)
Inductive reachable : World -> Prop :=
| reach_initial x : reachable (initial x)
| reach_loadTiktoken m w :
    reachable w -> reachable (snd (loadTiktoken m w))
| reach_loadLlamaTokenizer w :
    reachable w -> reachable (snd (loadLlamaTokenizer w))
| reach_countTokensWithTiktoken text m w :
    reachable w -> reachable (snd (countTokensWithTiktoken text m w))
| reach_countTokensWithLlama text w :
    reachable w -> reachable (snd (countTokensWithLlama text w))
| reach_countTokensAuto text m w :
    reachable w -> reachable (snd (countTokensAuto text m w))
| reach_countChatTokens msgs m w :
    reachable w -> reachable (snd (countChatTokens msgs m w))
| reach_getCacheStats w :
    reachable w -> reachable (snd (getCacheStats w))
| reach_clearTokenizerCache w :
    reachable w -> reachable (snd (clearTokenizerCache w))
| reach_assertEncodeDecodeRoundtrip text m w :
    reachable w -> reachable (snd (assertEncodeDecodeRoundtrip text m w)).

(** The encoder a strategy works with, when it can be loaded from [w0],
    leaving [w1]. *)
Inductive strategy_loads : Strategy -> World -> World -> Tiktoken P -> Prop :=
| exact_loads model w0 w1 h :
    loadTiktoken model w0 = (Ok h, w1) ->
    strategy_loads (Exact model) w0 w1 h
| approximate_loads w0 w1 t :
    loadLlamaTokenizer w0 = (Ok t, w1) ->
    strategy_loads Approximate w0 w1 (llama_encoding t).

(** The format that a file extension stands for. *)
Definition extension_format (extension : string) : option FileFormat :=
  if String.eqb extension "json" then Some FJson
  else if String.eqb extension "yaml" then Some FYaml
  else if String.eqb extension "yml" then Some FYaml
  else if String.eqb extension "toml" then Some FToml
  else if String.eqb extension "xml" then Some FXml
  else None.

(** The names of the rows of an analysis, in order. *)
Definition format_names : list string :=
  ["JSON (Minified)"; "JSON (Pretty)"; "YAML"; "TOML"].

(* ------------------------------------------------------------------ *)
(** ** Strings: lemmas *)

Lemma prefix_occurs (p s : string) :
  String.prefix p s = true <-> exists after, s = p ++ after.
Proof.
  revert s. induction p as [|c p IH]; intros s.
  - split; [intros _; exists s; reflexivity | intros _; now destruct s].
  - destruct s as [|d s]; simpl.
    + split; [discriminate | intros [after H]; discriminate].
    + destruct (ascii_dec c d) as [->|Hcd].
      * rewrite IH. split; intros [after H]; exists after.
        -- simpl. now rewrite H.
        -- simpl in H. now inversion H.
      * split; [discriminate|].
        intros [after H]. simpl in H. inversion H. congruence.
Qed.

Lemma includes_occurs (s p : string) :
  includes s p = true <-> occurs_in p s.
Proof.
  induction s as [|c s IH].
  - cbn [includes]. rewrite orb_false_r, prefix_occurs. split.
    + intros [after H]. exists "", after. exact H.
    + intros [before [after H]]. destruct before; [|discriminate].
      exists after. exact H.
  - cbn [includes]. rewrite orb_true_iff, prefix_occurs, IH. split.
    + intros [[after H]|[before [after H]]].
      * exists "", after. exact H.
      * exists (String c before), after. simpl. now rewrite H.
    + intros [before [after H]]. destruct before as [|d before].
      * left. exists after. exact H.
      * right. exists before, after. simpl in H. now inversion H.
Qed.

Lemma existsb_includes (s : string) (ps : list string) :
  existsb (fun p => includes s p) ps = true <-> contains_any s ps.
Proof.
  rewrite existsb_exists. unfold contains_any.
  split; intros [p [Hin H]]; exists p; split; trivial;
    now apply includes_occurs.
Qed.

Lemma lower_char_idempotent (c : ascii) :
  lower_char (lower_char c) = lower_char c.
Proof.
  destruct c as [[] [] [] [] [] [] [] []]; reflexivity.
Qed.

Lemma toLowerCase_idempotent (s : string) :
  toLowerCase (toLowerCase s) = toLowerCase s.
Proof.
  induction s as [|c s IH]; simpl; [reflexivity|].
  now rewrite lower_char_idempotent, IH.
Qed.

(* ------------------------------------------------------------------ *)
(** ** The result normalizer *)

(** C8: [normalizeEncodeResult] never throws.  An array is returned as it
    is, a Uint8Array, Uint16Array or Uint32Array is converted element by
    element, and any other value goes through [Array.from], whose
    failure is turned into the empty array. *)
Theorem normalizeEncodeResult_never_throws (raw : JsValue) :
  normalizeEncodeResult raw =
  Ok (match raw with
      | JsArray items => items
      | JsUint8Array items | JsUint16Array items | JsUint32Array items =>
          map JsNumber items
      | _ => match Array_from raw with
             | Ok l => l
             | Err _ => []
             end
      end).
Proof.
  destruct raw as [| | | | | | | | | | items [e|] |]; reflexivity.
Qed.

Lemma normalizeEncodeResult_uint32 (toks : list Z) :
  normalizeEncodeResult (JsUint32Array toks) = Ok (map JsNumber toks).
Proof. reflexivity. Qed.

Lemma normalizeEncodeResult_ok (raw : JsValue) :
  exists l, normalizeEncodeResult raw = Ok l.
Proof.
  destruct raw as [| | | | | | | | | | items [e|] |]; simpl; eauto.
Qed.

Lemma Uint32Array_new_numbers (toks : list Z) :
  Forall uint32 toks ->
  Uint32Array_new (ToNumber P) (map JsNumber toks) = Ok toks.
Proof.
  induction 1 as [|t toks Ht _ IH]; simpl; [reflexivity|].
  rewrite IH. simpl. unfold uint32 in Ht.
  now rewrite Z.mod_small.
Qed.

(* ------------------------------------------------------------------ *)
(** ** The encoding table: lemmas *)

Lemma own_property_In (k : string) (e : TiktokenEncoding)
    (tbl : list (string * TiktokenEncoding)) :
  own_property k tbl = Some e -> In (k, e) tbl.
Proof.
  induction tbl as [|[k' e'] tbl IH]; simpl; [discriminate|].
  destruct (String.eqb_spec k k') as [->|Hk].
  - intros [= ->]. now left.
  - intros H. right. auto.
Qed.

Lemma ENCODING_MAP_keys_lower (k : string) (e : TiktokenEncoding) :
  In (k, e) ENCODING_MAP -> toLowerCase k = k.
Proof.
  unfold ENCODING_MAP. simpl.
  intros H. repeat (destruct H as [[= <- <-]|H]; [reflexivity|]).
  destruct H.
Qed.

(** An identifier whose lower-cased form is a key of the table resolves
    to the scheme the table declares for it. *)
Lemma encodingName_table (m : string) (e : TiktokenEncoding) :
  own_property (toLowerCase m) ENCODING_MAP = Some e ->
  encodingName m = PEncoding e.
Proof.
  intros H. unfold encodingName, ENCODING_MAP_get. now rewrite H.
Qed.

(** Any other identifier resolves to cl100k_base, provided neither it
    nor its lower-cased form names a property of [Object.prototype]. *)
Lemma encodingName_default (m : string) :
  own_property (toLowerCase m) ENCODING_MAP = None ->
  mem_string (toLowerCase m) Object_prototype_names = false ->
  mem_string m Object_prototype_names = false ->
  encodingName m = PEncoding cl100k_base.
Proof.
  intros Hown Hlow Hm. unfold encodingName, ENCODING_MAP_get.
  rewrite Hown, Hlow. cbn [js_or truthy].
  destruct (own_property m ENCODING_MAP) as [e|] eqn:E.
  - pose proof (ENCODING_MAP_keys_lower _ _ (own_property_In _ _ _ E)) as Hk.
    rewrite Hk in Hown. congruence.
  - now rewrite Hm.
Qed.

(** C6: the identifier "constructor" is not a key of the table, and
    yet [loadTiktoken] does not resolve it to cl100k_base: the property
    read finds the [constructor] that the table inherits from
    [Object.prototype], and this function is what is handed to
    [get_encoding]. *)
Theorem encodingName_constructor :
  own_property (toLowerCase "constructor") ENCODING_MAP = None /\
  encodingName "constructor" = PInherited "constructor" /\
  encodingName "constructor" <> PEncoding cl100k_base.
Proof.
  split; [reflexivity|]. split; [reflexivity|]. discriminate.
Qed.

(* ------------------------------------------------------------------ *)
(** ** Insertion-ordered maps: lemmas *)

Lemma Map_get_None {V} (k : string) (m : list (string * V)) :
  Map_get k m = None <-> ~ In k (Map_keys m).
Proof.
  induction m as [|[k' v] m IH]; simpl.
  - split; [intros _ []|reflexivity].
  - destruct (String.eqb_spec k k') as [->|Hk].
    + split; [discriminate|]. intros H. exfalso. apply H. now left.
    + rewrite IH. split.
      * intros H [E|HIn]; [congruence|auto].
      * intros H HIn. apply H. now right.
Qed.

Lemma Map_set_new {V} (k : string) (v : V) (m : list (string * V)) :
  Map_get k m = None -> Map_set k v m = (m ++ [(k, v)])%list.
Proof.
  induction m as [|[k' v'] m IH]; simpl; [reflexivity|].
  destruct (String.eqb k k'); [discriminate|].
  intros H. now rewrite IH.
Qed.

Lemma Map_get_app_new {V} (k : string) (v : V) (m : list (string * V)) :
  Map_get k m = None -> Map_get k (m ++ [(k, v)])%list = Some v.
Proof.
  induction m as [|[k' v'] m IH]; simpl.
  - now rewrite String.eqb_refl.
  - destruct (String.eqb k k'); [discriminate|exact IH].
Qed.

Lemma entries_for_absent {V} (k : string) (m : list (string * V)) :
  Map_get k m = None -> entries_for k m = 0%nat.
Proof.
  unfold entries_for.
  induction m as [|[k' v] m IH]; simpl; [reflexivity|].
  destruct (String.eqb k k'); [discriminate|exact IH].
Qed.

Lemma entries_for_present {V} (k : string) (v : V) (m : list (string * V)) :
  NoDup (Map_keys m) -> Map_get k m = Some v -> entries_for k m = 1%nat.
Proof.
  unfold entries_for.
  induction m as [|[k' v'] m IH]; simpl; [discriminate|].
  intros Hnd. inversion Hnd as [|? ? Hnotin Hnd']; subst.
  destruct (String.eqb_spec k k') as [->|Hk]; simpl.
  - intros _. f_equal.
    apply (entries_for_absent k'). now apply Map_get_None.
  - auto.
Qed.

Lemma entries_for_app {V} (k : string) (m m' : list (string * V)) :
  entries_for k (m ++ m')%list = (entries_for k m + entries_for k m')%nat.
Proof.
  unfold entries_for. now rewrite filter_app, length_app.
Qed.

Lemma Map_delete_all {V} (l m : list (string * V)) :
  incl m l ->
  fold_left (fun acc kv => Map_delete (fst kv) acc) l m = [].
Proof.
  revert m. induction l as [|[k v] l IH]; intros m Hincl; simpl.
  - destruct m as [|kv m]; [reflexivity|].
    destruct (Hincl kv (or_introl eq_refl)).
  - apply IH. intros kv HIn. unfold Map_delete in HIn.
    apply filter_In in HIn. destruct HIn as [HIn Hne].
    destruct (Hincl kv HIn) as [<-|H]; [|exact H].
    simpl in Hne. now rewrite String.eqb_refl in Hne.
Qed.

(* ------------------------------------------------------------------ *)
(** ** The encoder cache *)

Ltac run :=
  repeat (progress
    unfold bind, ret, throw, try_catch, lift_res, ext_call, ext_read, read,
      update, nowMs, elapsed);
  cbn [tiktokenCache llamaTokenizerCache ext
       set_ext set_tiktokenCache set_llamaTokenizerCache fst snd].

(** A hit: the cached encoder is returned and only the clock has moved. *)
Lemma loadTiktoken_hit (m : string) (w : World) (entry : TiktokenCacheEntry) :
  Map_get (toLowerCase m) (tiktokenCache w) = Some entry ->
  loadTiktoken m w =
  (Ok (encoding entry), set_ext (snd (performance_now P (ext w))) w).
Proof.
  intros H. unfold loadTiktoken. run.
  destruct (performance_now P (ext w)) as [start x0]. run.
  unfold Map_has. now rewrite H.
Qed.

(** A miss on which the encoder cannot be instantiated. *)
Lemma loadTiktoken_miss_err (m : string) (w : World) (e : Exn) (x : Ext P) :
  Map_get (toLowerCase m) (tiktokenCache w) = None ->
  get_encoding P (encodingName m) (snd (performance_now P (ext w))) = (Err e, x) ->
  loadTiktoken m w = (Err e, set_ext x w).
Proof.
  intros H G. unfold loadTiktoken. run.
  destruct (performance_now P (ext w)) as [start x0]. run.
  unfold Map_has. rewrite H. simpl in G. run. now rewrite G.
Qed.

(** A miss on which the encoder is instantiated: a new entry goes into
    the cache, stamped with the wall-clock time. *)
Lemma loadTiktoken_miss_ok (m : string) (w : World) (h : Tiktoken P)
    (x : Ext P) :
  Map_get (toLowerCase m) (tiktokenCache w) = None ->
  get_encoding P (encodingName m) (snd (performance_now P (ext w))) = (Ok h, x) ->
  loadTiktoken m w =
  (Ok h,
   {| tiktokenCache :=
        Map_set (toLowerCase m)
          {| encoding := h; model := m; loadedAt := fst (Date_now P x) |}
          (tiktokenCache w);
      llamaTokenizerCache := llamaTokenizerCache w;
      ext := snd (Date_now P x) |}).
Proof.
  intros H G. unfold loadTiktoken. run.
  destruct (performance_now P (ext w)) as [start x0]. run.
  unfold Map_has. rewrite H. simpl in G. run. rewrite G. run.
  destruct (Date_now P x) as [now x1]. reflexivity.
Qed.

(** C4: two calls of [loadTiktoken] with identifiers that differ only in
    case (their lower-cased forms are equal) return the same encoder; the
    second call leaves the cache as the first left it, so the entry keeps
    its loading timestamp, and the cache holds one entry for the
    lower-cased key. *)
Theorem loadTiktoken_case_insensitive
    (m1 m2 : string) (w w1 : World) (h : Tiktoken P) :
  toLowerCase m1 = toLowerCase m2 ->
  NoDup (Map_keys (tiktokenCache w)) ->
  loadTiktoken m1 w = (Ok h, w1) ->
  exists w2,
    loadTiktoken m2 w1 = (Ok h, w2) /\
    tiktokenCache w2 = tiktokenCache w1 /\
    llamaTokenizerCache w2 = llamaTokenizerCache w1 /\
    entries_for (toLowerCase m1) (tiktokenCache w2) = 1%nat.
Proof.
  intros Hcase Hnd Hload.
  destruct (Map_get (toLowerCase m1) (tiktokenCache w)) as [entry|] eqn:Hget.
  - rewrite (loadTiktoken_hit _ _ _ Hget) in Hload.
    injection Hload as <- <-.
    eexists. split; [|split; [|split]].
    + apply loadTiktoken_hit. rewrite <- Hcase. exact Hget.
    + reflexivity.
    + reflexivity.
    + simpl. now apply (entries_for_present _ entry).
  - destruct (get_encoding P (encodingName m1)
                (snd (performance_now P (ext w)))) as [[h'|e] x] eqn:G.
    + rewrite (loadTiktoken_miss_ok _ _ _ _ Hget G) in Hload.
      injection Hload as <- <-.
      rewrite (Map_set_new _ _ _ Hget).
      eexists. split; [|split; [|split]].
      * rewrite (loadTiktoken_hit m2 _
                   {| encoding := h'; model := m1;
                      loadedAt := fst (Date_now P x) |}); [reflexivity|].
        rewrite <- Hcase. simpl. now apply Map_get_app_new.
      * reflexivity.
      * reflexivity.
      * simpl. rewrite entries_for_app, (entries_for_absent _ _ Hget).
        unfold entries_for. simpl. now rewrite String.eqb_refl.
    + rewrite (loadTiktoken_miss_err _ _ _ _ Hget G) in Hload. discriminate.
Qed.

(** C5: on a miss, when the encoder cannot be instantiated, the error
    reaches the caller and both caches are as they were. *)
Theorem loadTiktoken_failure_propagates
    (m : string) (w : World) (e : Exn) (x : Ext P) :
  Map_has (toLowerCase m) (tiktokenCache w) = false ->
  get_encoding P (encodingName m) (snd (performance_now P (ext w))) = (Err e, x) ->
  exists w',
    loadTiktoken m w = (Err e, w') /\
    tiktokenCache w' = tiktokenCache w /\
    llamaTokenizerCache w' = llamaTokenizerCache w.
Proof.
  intros Hmiss G. unfold Map_has in Hmiss.
  destruct (Map_get (toLowerCase m) (tiktokenCache w)) eqn:Hget;
    [discriminate|].
  exists (set_ext x w). split; [|split]; try reflexivity.
  now apply loadTiktoken_miss_err.
Qed.

(* ------------------------------------------------------------------ *)
(** ** The counting strategies *)

Lemma Qceiling_quarter (n : Z) : Qceiling (inject_Z n / 4) = (n + 3) / 4.
Proof.
  unfold Qceiling, Qfloor, Qdiv, Qmult, Qinv, Qopp, inject_Z. simpl.
  Z.div_mod_to_equations. lia.
Qed.

Lemma fallback_ceiling (text : string) :
  exists c, ceiling_of_quarter (str_length text) c /\ fallback text = Z.max 1 c.
Proof.
  exists (Qceiling (inject_Z (str_length text) / 4)). split; [|reflexivity].
  rewrite Qceiling_quarter. unfold ceiling_of_quarter.
  Z.div_mod_to_equations. lia.
Qed.

Lemma fallback_positive (text : string) : 1 <= fallback text.
Proof. unfold fallback. lia. Qed.

(** C2: neither strategy throws.  When a step of a strategy fails (the
    encoder cannot be loaded, or it throws on the text), the result holds
    max(1, ceil(text.length / 4)) tokens and the time elapsed from the
    start of the call to the moment after the failure. *)
Theorem strategies_fall_back (s : Strategy) (text : string) (w : World) :
  exists r w',
    run_strategy s text w = (Ok r, w') /\
    forall w1,
      strategy_fails text s (snd (nowMs w)) w1 ->
      (exists c, ceiling_of_quarter (str_length text) c /\
                 tokens r = Z.max 1 c) /\
      timeMs r =
        toFixed2 P (num_sub P (fst (performance_now P (ext w1)))
                              (fst (performance_now P (ext w)))) /\
      w' = set_ext (snd (performance_now P (ext w1))) w1.
Proof.
  destruct s as [model|]; unfold run_strategy.
  - unfold countTokensWithTiktoken. run.
    destruct (performance_now P (ext w)) as [start x0]. run.
    destruct (loadTiktoken model (set_ext x0 w)) as [[h|e] w1] eqn:L.
    + destruct (encode P h text) as [raw|e] eqn:E.
      * destruct (normalizeEncodeResult_ok raw) as [l ->].
        destruct (performance_now P (ext w1)) as [t x1]. run.
        eexists _, _. split; [reflexivity|].
        intros w1' F. inversion F; subst; congruence.
      * destruct (performance_now P (ext w1)) as [t x1] eqn:T. run.
        eexists _, _. split; [reflexivity|].
        intros w1' F.
        assert (w1' = w1) as -> by (inversion F; subst; congruence).
        rewrite T. simpl. repeat split. apply fallback_ceiling.
    + destruct (performance_now P (ext w1)) as [t x1] eqn:T. run.
      eexists _, _. split; [reflexivity|].
      intros w1' F.
      assert (w1' = w1) as -> by (inversion F; subst; congruence).
      rewrite T. simpl. repeat split. apply fallback_ceiling.
  - unfold countTokensWithLlama. run.
    destruct (performance_now P (ext w)) as [start x0]. run.
    destruct (loadLlamaTokenizer (set_ext x0 w)) as [[tk|e] w1] eqn:L.
    + unfold llama_encode.
      destruct (encode P (llama_encoding tk) text) as [raw|e] eqn:E.
      * cbn [res_bind].
        destruct (normalizeEncodeResult_ok raw) as [l ->].
        destruct (performance_now P (ext w1)) as [t x1]. run.
        eexists _, _. split; [reflexivity|].
        intros w1' F. inversion F; subst; congruence.
      * cbn [res_bind].
        destruct (performance_now P (ext w1)) as [t x1] eqn:T. run.
        eexists _, _. split; [reflexivity|].
        intros w1' F.
        assert (w1' = w1) as -> by (inversion F; subst; congruence).
        rewrite T. simpl. repeat split. apply fallback_ceiling.
    + destruct (performance_now P (ext w1)) as [t x1] eqn:T. run.
      eexists _, _. split; [reflexivity|].
      intros w1' F.
      assert (w1' = w1) as -> by (inversion F; subst; congruence).
      rewrite T. simpl. repeat split. apply fallback_ceiling.
Qed.

(** Neither strategy throws. *)
Lemma run_strategy_returns (s : Strategy) (text : string) (w : World) :
  exists r w', run_strategy s text w = (Ok r, w').
Proof.
  destruct s as [model|]; unfold run_strategy.
  - unfold countTokensWithTiktoken. run.
    destruct (performance_now P (ext w)) as [start x0]. run.
    destruct (loadTiktoken model (set_ext x0 w)) as [[h|e] w1];
      [destruct (encode P h text) as [raw|e];
       [destruct (normalizeEncodeResult_ok raw) as [l ->]|]|];
      destruct (performance_now P (ext w1)) as [t x1]; run; eauto.
  - unfold countTokensWithLlama, llama_encode. run.
    destruct (performance_now P (ext w)) as [start x0]. run.
    destruct (loadLlamaTokenizer (set_ext x0 w)) as [[tk|e] w1];
      [destruct (encode P (llama_encoding tk) text) as [raw|e];
       cbn [res_bind];
       [destruct (normalizeEncodeResult_ok raw) as [l ->]|]|];
      destruct (performance_now P (ext w1)) as [t x1]; run; eauto.
Qed.

(* ------------------------------------------------------------------ *)
(** ** The router *)

Lemma contains_any_dec (s : string) (ps : list string) :
  {contains_any s ps} + {~ contains_any s ps}.
Proof.
  destruct (existsb (fun p => includes s p) ps) eqn:E.
  - left. now apply existsb_includes.
  - right. intros H. apply existsb_includes in H. congruence.
Qed.

(** Every identifier is dispatched, and to one strategy only. *)
Lemma dispatch_total (model : string) : exists s, dispatch model s.
Proof.
  destruct (contains_any_dec (toLowerCase model) openai_family) as [O|O].
  - eexists. now apply dispatch_openai.
  - destruct (contains_any_dec (toLowerCase model) llama_family) as [L|L].
    + eexists. now apply dispatch_llama.
    + eexists. now apply dispatch_default.
Qed.

Lemma dispatch_functional (model : string) (s1 s2 : Strategy) :
  dispatch model s1 -> dispatch model s2 -> s1 = s2.
Proof.
  intros D1 D2. inversion D1; inversion D2; subst; tauto.
Qed.

(** The branch the router takes is the one the dispatch rule names. *)
Lemma dispatch_branch (model : string) (s : Strategy) (text : string) :
  dispatch model s ->
  (if existsb (fun p => includes (toLowerCase model) p) openai_family
   then countTokensWithTiktoken text model
   else if existsb (fun p => includes (toLowerCase model) p) llama_family
        then countTokensWithLlama text
        else countTokensWithTiktoken text "gpt-4")
  = run_strategy s text.
Proof.
  intros [O|O L|O L].
  - apply existsb_includes in O. now rewrite O.
  - apply existsb_includes in L. rewrite L.
    destruct (existsb _ openai_family) eqn:E; [|reflexivity].
    apply existsb_includes in E. contradiction.
  - destruct (existsb _ openai_family) eqn:E.
    { apply existsb_includes in E. contradiction. }
    destruct (existsb _ llama_family) eqn:E'; [|reflexivity].
    apply existsb_includes in E'. contradiction.
Qed.

(** C1: [countTokensAuto] lower-cases the identifier and runs the exact
    strategy on the identifier when it contains one of gpt, text-,
    davinci, curie, babbage, ada; otherwise the approximate strategy when
    it contains one of llama, mistral, mixtral, codellama, vicuna,
    alpaca; otherwise the exact strategy on "gpt-4".  It returns the
    token count of that strategy, with the time elapsed since its own
    start. *)
Theorem countTokensAuto_dispatch
    (text model : string) (s : Strategy) (w : World) :
  dispatch model s ->
  exists res w1,
    run_strategy s text (snd (nowMs w)) = (Ok res, w1) /\
    countTokensAuto text model w =
      (Ok {| tokens := tokens res;
             timeMs :=
               toFixed2 P (num_sub P (fst (performance_now P (ext w1)))
                                     (fst (performance_now P (ext w)))) |},
       set_ext (snd (performance_now P (ext w1))) w1).
Proof.
  intros D.
  destruct (run_strategy_returns s text (snd (nowMs w))) as [res [w1 R]].
  exists res, w1. split; [exact R|].
  unfold countTokensAuto. run. revert R. run.
  destruct (performance_now P (ext w)) as [start x0]. run.
  change OPENAI_PREFIXES with openai_family.
  change LLAMA_PREFIXES with llama_family.
  intros R.
  rewrite (dispatch_branch _ _ text D).
  rewrite R.
  destruct (performance_now P (ext w1)) as [t x1]. reflexivity.
Qed.

(* ------------------------------------------------------------------ *)
(** ** The chat counter *)

Lemma token_count_encodes (h : Tiktoken P) (s : string) :
  encodes h s ->
  exists raw l,
    encode P h s = Ok raw /\ normalizeEncodeResult raw = Ok l /\
    token_count h s = array_length l.
Proof.
  intros [raw E]. destruct (normalizeEncodeResult_ok raw) as [l N].
  exists raw, l. unfold token_count. rewrite E. simpl. now rewrite N.
Qed.


Lemma encodes_dec (h : Tiktoken P) (s : string) :
  {encodes h s} + {~ encodes h s}.
Proof.
  unfold encodes. destruct (encode P h s) as [raw|e].
  - left. now exists raw.
  - right. intros [raw H]. discriminate.
Qed.



(* ------------------------------------------------------------------ *)
(** ** Clearing the cache *)

Lemma clear_entry_deletes (kv : string * TiktokenCacheEntry) (w : World) :
  exists x,
    clear_entry kv w =
    (Ok tt,
     {| tiktokenCache := Map_delete (fst kv) (tiktokenCache w);
        llamaTokenizerCache := llamaTokenizerCache w;
        ext := x |}).
Proof.
  destruct kv as [k entry]. unfold clear_entry. run.
  destruct (has_free P (encoding entry)); run.
  - destruct (free P (encoding entry) (ext w)) as [[[]|e] x]; run;
      eexists; reflexivity.
  - eexists; reflexivity.
Qed.

Lemma clear_loop_deletes (entries : list (string * TiktokenCacheEntry)) :
  forall w,
  exists x,
    clear_loop entries w =
    (Ok tt,
     {| tiktokenCache :=
          fold_left (fun acc kv => Map_delete (fst kv) acc) entries
            (tiktokenCache w);
        llamaTokenizerCache := llamaTokenizerCache w;
        ext := x |}).
Proof.
  induction entries as [|kv entries IH]; intros w; simpl.
  - exists (ext w). destruct w; reflexivity.
  - destruct (clear_entry_deletes kv w) as [x E].
    unfold bind at 1. rewrite E.
    destruct (IH {| tiktokenCache := Map_delete (fst kv) (tiktokenCache w);
                    llamaTokenizerCache := llamaTokenizerCache w;
                    ext := x |}) as [x' E'].
    exists x'. exact E'.
Qed.

(** Clearing never throws and leaves both caches empty. *)
Lemma clearTokenizerCache_empties (w : World) :
  exists x, clearTokenizerCache w = (Ok tt, initial x).
Proof.
  unfold clearTokenizerCache.
  destruct (clear_loop_deletes (tiktokenCache w) w) as [x E].
  exists x. run. rewrite E. run.
  rewrite Map_delete_all by apply incl_refl. reflexivity.
Qed.




(* ------------------------------------------------------------------ *)
(** ** The cache invariant *)

Lemma cache_inv_same (w w' : World) :
  tiktokenCache w' = tiktokenCache w -> cache_inv w -> cache_inv w'.
Proof. unfold cache_inv. now intros ->. Qed.

Lemma cache_inv_initial (x : Ext P) : cache_inv (initial x).
Proof. split; constructor. Qed.

(** What [loadTiktoken] does to the two caches: nothing on a hit and on
    a failure; on a miss that succeeds, one entry is put after the
    others, under the lower-cased identifier. *)
Lemma loadTiktoken_caches (m : string) (w w' : World) (r : Res (Tiktoken P)) :
  loadTiktoken m w = (r, w') ->
  llamaTokenizerCache w' = llamaTokenizerCache w /\
  tiktokenCache w' =
    if Map_has (toLowerCase m) (tiktokenCache w) then tiktokenCache w
    else match r with
         | Ok h =>
             (tiktokenCache w ++
              [(toLowerCase m,
                {| encoding := h; model := m;
                   loadedAt :=
                     match Map_get (toLowerCase m) (tiktokenCache w') with
                     | Some entry => loadedAt entry
                     | None => 0
                     end |})])%list
         | Err _ => tiktokenCache w
         end.
Proof.
  unfold Map_has.
  destruct (Map_get (toLowerCase m) (tiktokenCache w)) as [entry|] eqn:Hget.
  - rewrite (loadTiktoken_hit _ _ _ Hget). intros [= <- <-]. now split.
  - destruct (get_encoding P (encodingName m)
                (snd (performance_now P (ext w)))) as [[h|e] x] eqn:G.
    + rewrite (loadTiktoken_miss_ok _ _ _ _ Hget G). intros [= <- <-].
      cbn [tiktokenCache llamaTokenizerCache]. split; [reflexivity|].
      rewrite (Map_set_new _ _ _ Hget).
      now rewrite (Map_get_app_new _ _ _ Hget).
    + rewrite (loadTiktoken_miss_err _ _ _ _ Hget G). intros [= <- <-].
      now split.
Qed.

Lemma loadTiktoken_cache_inv (m : string) (w : World) :
  cache_inv w -> cache_inv (snd (loadTiktoken m w)).
Proof.
  intros [Hnd Hlow].
  destruct (loadTiktoken m w) as [r w'] eqn:L.
  destruct (loadTiktoken_caches _ _ _ _ L) as [_ C]. cbn [snd].
  unfold Map_has in C.
  destruct (Map_get (toLowerCase m) (tiktokenCache w)) eqn:Hget.
  - apply (cache_inv_same w); [exact C|now split].
  - destruct r as [h|e].
    + unfold cache_inv. rewrite C. split.
      * unfold Map_keys. rewrite map_app. simpl.
        apply NoDup_app; [exact Hnd|repeat constructor; intros []|].
        intros k HIn [<-|[]]. now apply Map_get_None in Hget.
      * apply Forall_app. split; [exact Hlow|]. now repeat constructor.
    + apply (cache_inv_same w); [exact C|now split].
Qed.

Lemma loadLlamaTokenizer_cache (w : World) :
  tiktokenCache (snd (loadLlamaTokenizer w)) = tiktokenCache w.
Proof.
  unfold loadLlamaTokenizer. run.
  destruct (llamaTokenizerCache w); [reflexivity|]. run.
  now destruct (get_encoding P (PEncoding cl100k_base) (ext w)) as [[h|e] x].
Qed.

Lemma countTokensWithTiktoken_cache (text m : string) (w : World) :
  tiktokenCache (snd (countTokensWithTiktoken text m w)) =
  tiktokenCache (snd (loadTiktoken m (snd (nowMs w)))).
Proof.
  unfold countTokensWithTiktoken. run.
  destruct (performance_now P (ext w)) as [start x0]. run.
  destruct (loadTiktoken m (set_ext x0 w)) as [[h|e] w1];
    [destruct (encode P h text) as [raw|e];
     [destruct (normalizeEncodeResult_ok raw) as [l ->]|]|];
    now destruct (performance_now P (ext w1)) as [t x1].
Qed.

Lemma countTokensWithLlama_cache (text : string) (w : World) :
  tiktokenCache (snd (countTokensWithLlama text w)) = tiktokenCache w.
Proof.
  unfold countTokensWithLlama, llama_encode. run.
  destruct (performance_now P (ext w)) as [start x0]. run.
  pose proof (loadLlamaTokenizer_cache (set_ext x0 w)) as C.
  destruct (loadLlamaTokenizer (set_ext x0 w)) as [[tk|e] w1];
    [destruct (encode P (llama_encoding tk) text) as [raw|e];
     cbn [res_bind];
     [destruct (normalizeEncodeResult_ok raw) as [l ->]|]|];
    now destruct (performance_now P (ext w1)) as [t x1].
Qed.

Lemma nowMs_cache_inv (w : World) : cache_inv w -> cache_inv (snd (nowMs w)).
Proof.
  apply cache_inv_same. run.
  now destruct (performance_now P (ext w)).
Qed.

Lemma run_strategy_cache_inv (s : Strategy) (text : string) (w : World) :
  cache_inv w -> cache_inv (snd (run_strategy s text w)).
Proof.
  intros H. destruct s as [m|]; cbn [run_strategy].
  - apply (cache_inv_same (snd (loadTiktoken m (snd (nowMs w))))).
    + apply countTokensWithTiktoken_cache.
    + now apply loadTiktoken_cache_inv, nowMs_cache_inv.
  - apply (cache_inv_same w); [apply countTokensWithLlama_cache|exact H].
Qed.

Lemma countTokensAuto_cache_inv (text m : string) (w : World) :
  cache_inv w -> cache_inv (snd (countTokensAuto text m w)).
Proof.
  intros H.
  destruct (dispatch_total m) as [s D].
  destruct (run_strategy_returns s text (snd (nowMs w))) as [res [w1 R]].
  pose proof (run_strategy_cache_inv s text _ (nowMs_cache_inv _ H)) as I.
  rewrite R in I. cbn [snd] in I.
  assert (tiktokenCache (snd (countTokensAuto text m w)) = tiktokenCache w1)
    as E; [|now apply (cache_inv_same _ _ E)].
  unfold countTokensAuto. revert R. run.
  destruct (performance_now P (ext w)) as [start x0]. run.
  change OPENAI_PREFIXES with openai_family.
  change LLAMA_PREFIXES with llama_family.
  rewrite (dispatch_branch _ _ text D).
  intros ->. now destruct (performance_now P (ext w1)).
Qed.

Lemma countChatTokens_cache
    (messages : list ChatMessage) (m : option string) (w : World) :
  snd (countChatTokens messages m w) =
  snd (loadTiktoken (default_arg "gpt-4" m) w).
Proof.
  unfold countChatTokens. run.
  now destruct (loadTiktoken (default_arg "gpt-4" m) w) as [[h|e] w1].
Qed.

Lemma assertEncodeDecodeRoundtrip_cache
    (text : string) (m : option string) (w : World) :
  snd (assertEncodeDecodeRoundtrip text m w) =
  snd (loadTiktoken (default_arg "gpt-4" m) w).
Proof.
  unfold assertEncodeDecodeRoundtrip. run.
  destruct (loadTiktoken (default_arg "gpt-4" m) w) as [[h|e] w1];
    [|reflexivity].
  destruct (encode P h text) as [raw|e]; [|reflexivity].
  destruct (normalizeEncodeResult raw) as [arr|e]; [|reflexivity].
  destruct (Uint32Array_new (ToNumber P) arr) as [u|e]; [|reflexivity].
  destruct (decode P h u) as [d|e]; [|reflexivity].
  now destruct (normalizeDecodeResult (utf8_decode P) (String_of P) d).
Qed.

(** X9: every world the module can be in, after any sequence of calls of
    its exported functions from the initial world, satisfies the cache
    invariant: the keys of the encoder cache are pairwise distinct and
    each is the lower-cased identifier of its entry. *)
Lemma reachable_cache_inv (w : World) : reachable w -> cache_inv w.
Proof.
  induction 1 as [x | m w _ IH | w _ IH | text m w _ IH | text w _ IH
                 | text m w _ IH | msgs m w _ IH | w _ IH | w _ IH
                 | text m w _ IH].
  - apply cache_inv_initial.
  - now apply loadTiktoken_cache_inv.
  - apply (cache_inv_same w); [apply loadLlamaTokenizer_cache|exact IH].
  - now apply (run_strategy_cache_inv (Exact m)).
  - now apply (run_strategy_cache_inv Approximate).
  - now apply countTokensAuto_cache_inv.
  - rewrite countChatTokens_cache. now apply loadTiktoken_cache_inv.
  - exact IH.
  - destruct (clearTokenizerCache_empties w) as [x ->].
    apply cache_inv_initial.
  - rewrite assertEncodeDecodeRoundtrip_cache.
    now apply loadTiktoken_cache_inv.
Qed.

(* ------------------------------------------------------------------ *)
(** ** The cache diagnostics *)

Lemma fold_min_least (r : list Z) :
  forall x,
    In (fold_left Z.min r x) (x :: r) /\
    Forall (Z.le (fold_left Z.min r x)) (x :: r).
Proof.
  induction r as [|y r IH]; intros x; cbn [fold_left].
  - split; [now left|]. constructor; [lia|constructor].
  - destruct (IH (Z.min x y)) as [HIn HF].
    inversion HF as [|? ? Hle HF']; subst. split.
    + destruct HIn as [E|HIn].
      * rewrite <- E.
        destruct (Z.min_spec x y) as [[_ ->]|[_ ->]];
          [now left|right; now left].
      * right. now right.
    + constructor; [lia|]. constructor; [lia|exact HF'].
Qed.

Lemma Math_min_least (ts : list Z) :
  ts <> [] -> least_or_null ts (Math_min ts).
Proof.
  destruct ts as [|x r]; [congruence|]. intros _.
  cbn [least_or_null Math_min]. eexists. split; [reflexivity|].
  apply fold_min_least.
Qed.

(** C10: [getCacheStats] reports the keys of the cache, which are the
    lower-cased identifiers of its entries, in the order in which they
    were first inserted (a load of a key that is present leaves the list
    alone, a new key goes last); [llamaLoaded] is true exactly when the
    Llama tokenizer exists; [oldestEntry] is the least [loadedAt], or
    null for an empty cache; and the world is left as it was. *)
Theorem getCacheStats_reports (w : World) :
  cache_inv w ->
  exists s,
    getCacheStats w = (Ok s, w) /\
    tiktokenEntries s = Z.of_nat (List.length (tiktokenCache w)) /\
    models s = Map_keys (tiktokenCache w) /\
    models s =
      map (fun kv => toLowerCase (model (snd kv))) (tiktokenCache w) /\
    (llamaLoaded s = true <-> exists t, llamaTokenizerCache w = Some t) /\
    least_or_null (map (fun kv => loadedAt (snd kv)) (tiktokenCache w))
      (oldestEntry s) /\
    forall m r w',
      loadTiktoken m w = (r, w') ->
      exists s',
        getCacheStats w' = (Ok s', w') /\
        models s' =
          if Map_has (toLowerCase m) (tiktokenCache w) then models s
          else match r with
               | Ok _ => (models s ++ [toLowerCase m])%list
               | Err _ => models s
               end.
Proof.
  intros [Hnd Hlow].
  eexists. split; [reflexivity|]. cbn [tiktokenEntries models llamaLoaded
                                       oldestEntry].
  split; [reflexivity|]. split; [reflexivity|]. split; [|split; [|split]].
  - unfold Map_keys. apply map_ext_in. intros kv HIn.
    rewrite Forall_forall in Hlow. now apply Hlow.
  - destruct (llamaTokenizerCache w) as [t|].
    + split; [eauto|reflexivity].
    + split; [discriminate|intros [t H]; discriminate].
  - unfold array_length, Map_keys, Map_values. rewrite length_map, map_map.
    destruct (tiktokenCache w) as [|kv c]; [reflexivity|].
    replace (Z.of_nat (List.length (kv :: c)) =? 0) with false
      by (symmetry; apply Z.eqb_neq; simpl; lia).
    apply Math_min_least. discriminate.
  - intros m r w' L.
    eexists. split; [reflexivity|]. cbn [models].
    destruct (loadTiktoken_caches _ _ _ _ L) as [_ C]. rewrite C.
    destruct (Map_has (toLowerCase m) (tiktokenCache w)); [reflexivity|].
    destruct r as [h|e]; [|reflexivity].
    unfold Map_keys. now rewrite map_app.
Qed.

(* ------------------------------------------------------------------ *)
(** ** The round trip *)

(** C9: when the encoder loads, encodes the text and decodes its tokens
    to bytes, [assertEncodeDecodeRoundtrip] returns true exactly when the
    UTF-8 decoding of these bytes is the text; when the encoder loads and
    throws on the text, it returns false. *)
Theorem assertEncodeDecodeRoundtrip_decides
    (text : string) (model : option string) (w w1 : World) (h : Tiktoken P) :
  loadTiktoken (default_arg "gpt-4" model) w = (Ok h, w1) ->
  (forall bytes,
      encoder_yields h text bytes ->
      assertEncodeDecodeRoundtrip text model w =
      (Ok (String.eqb (utf8_decode P bytes) text), w1)) /\
  (forall e,
      encode P h text = Err e ->
      assertEncodeDecodeRoundtrip text model w = (Ok false, w1)).
Proof.
  intros L. split.
  - intros bytes [toks [E [U D]]].
    unfold assertEncodeDecodeRoundtrip. run. rewrite L, E.
    rewrite normalizeEncodeResult_uint32.
    rewrite (Uint32Array_new_numbers _ U), D. reflexivity.
  - intros e E. unfold assertEncodeDecodeRoundtrip. run.
    now rewrite L, E.
Qed.

(* ------------------------------------------------------------------ *)
(** ** Further properties of the tokenizer module *)

(** X1: [normalizeDecodeResult] (lines 50-60) never throws: a string is
    returned as it is, a Uint8Array is decoded as UTF-8, and any other
    value goes through [String(...)], whose failure is turned into the
    empty string. *)
Theorem normalizeDecodeResult_never_throws (decResult : JsValue) :
  normalizeDecodeResult (utf8_decode P) (String_of P) decResult =
  Ok (match decResult with
      | JsString s => s
      | JsUint8Array bytes => utf8_decode P bytes
      | _ => match String_of P decResult with
             | Ok s => s
             | Err _ => ""
             end
      end).
Proof.
  destruct decResult; cbn [normalizeDecodeResult res_catch];
    try reflexivity; now destruct (String_of P _).
Qed.

Lemma normalizeDecodeResult_ok (decResult : JsValue) :
  exists s,
    normalizeDecodeResult (utf8_decode P) (String_of P) decResult = Ok s.
Proof.
  destruct decResult; cbn [normalizeDecodeResult]; eauto;
    destruct (String_of P _); cbn [res_catch]; eauto.
Qed.

(** X2: the [decode] closure of the Llama tokenizer (lines 132-141)
    never throws: it returns the normalized text that the encoder decodes
    from the tokens, and the empty string when the conversion of the
    tokens or the encoder throws. *)
Theorem llama_decode_never_throws (t : LlamaTokenizer) (toks : list JsValue) :
  exists s,
    llama_decode t toks = Ok s /\
    ((exists e, res_bind (Uint32Array_new (ToNumber P) toks)
                  (decode P (llama_encoding t)) = Err e) /\ s = "" \/
     exists d,
       res_bind (Uint32Array_new (ToNumber P) toks)
         (decode P (llama_encoding t)) = Ok d /\
       normalizeDecodeResult (utf8_decode P) (String_of P) d = Ok s).
Proof.
  unfold llama_decode.
  destruct (Uint32Array_new (ToNumber P) toks) as [u|e]; cbn [res_bind].
  - destruct (decode P (llama_encoding t) u) as [d|e]; cbn [res_bind].
    + destruct (normalizeDecodeResult_ok d) as [s E]. rewrite E.
      exists s. split; [reflexivity|]. right. now exists d.
    + exists "". split; [reflexivity|]. left. split; [now exists e|reflexivity].
  - exists "". split; [reflexivity|]. left. split; [now exists e|reflexivity].
Qed.

(** X3: when the encoder of the Llama tokenizer encodes the text and
    decodes its tokens to bytes, the [decode] closure applied to what the
    [encode] closure returns for the text gives the UTF-8 decoding of
    these bytes. *)
Theorem llama_decode_encode
    (t : LlamaTokenizer) (text : string) (bytes : list Z) :
  encoder_yields (llama_encoding t) text bytes ->
  exists toks,
    llama_encode t text = Ok toks /\
    llama_decode t toks = Ok (utf8_decode P bytes).
Proof.
  intros [toks [E [U D]]].
  exists (map JsNumber toks). unfold llama_encode, llama_decode.
  rewrite E. cbn [res_bind]. split; [reflexivity|].
  rewrite (Uint32Array_new_numbers _ U). cbn [res_bind]. rewrite D.
  reflexivity.
Qed.

(** X4: [loadLlamaTokenizer] (lines 124-145) keeps one tokenizer: once a
    call has returned it, it is stored, every later call returns the same
    one without touching the world, and the encoder cache is as it
    was. *)
Theorem loadLlamaTokenizer_singleton (w w1 : World) (t : LlamaTokenizer) :
  loadLlamaTokenizer w = (Ok t, w1) ->
  llamaTokenizerCache w1 = Some t /\
  loadLlamaTokenizer w1 = (Ok t, w1) /\
  tiktokenCache w1 = tiktokenCache w.
Proof.
  unfold loadLlamaTokenizer at 1. run.
  destruct (llamaTokenizerCache w) as [t0|] eqn:C.
  - intros [= <- <-]. unfold loadLlamaTokenizer. run. rewrite C.
    repeat split.
  - run.
    destruct (get_encoding P (PEncoding cl100k_base) (ext w)) as [[h|e] x];
      [|discriminate].
    intros [= <- <-]. unfold loadLlamaTokenizer. run. repeat split.
Qed.

(** X5: when no Llama tokenizer is stored and the cl100k_base encoder
    cannot be instantiated, [loadLlamaTokenizer] throws that error and
    stores nothing; a later call on which the encoder is instantiated
    then creates the tokenizer. *)
Theorem loadLlamaTokenizer_failure (w : World) (e : Exn) (x : Ext P) :
  llamaTokenizerCache w = None ->
  get_encoding P (PEncoding cl100k_base) (ext w) = (Err e, x) ->
  exists w1,
    loadLlamaTokenizer w = (Err e, w1) /\
    llamaTokenizerCache w1 = None /\
    tiktokenCache w1 = tiktokenCache w /\
    forall h x',
      get_encoding P (PEncoding cl100k_base) (ext w1) = (Ok h, x') ->
      exists w2,
        loadLlamaTokenizer w1 = (Ok {| llama_encoding := h |}, w2) /\
        llamaTokenizerCache w2 = Some {| llama_encoding := h |}.
Proof.
  intros C G. exists (set_ext x w).
  unfold loadLlamaTokenizer. run. rewrite C. run. rewrite G.
  split; [reflexivity|]. split; [reflexivity|]. split; [reflexivity|].
  intros h x' G'. rewrite G'. eexists. split; reflexivity.
Qed.

Lemma array_length_nonneg {A} (l : list A) : 0 <= array_length l.
Proof. unfold array_length. lia. Qed.

Lemma token_count_nonneg (h : Tiktoken P) (s : string) :
  0 <= token_count h s.
Proof.
  unfold token_count.
  destruct (res_bind (encode P h s) normalizeEncodeResult);
    [apply array_length_nonneg|lia].
Qed.

(** X6: when the encoder of a strategy loads and encodes the text, the
    strategy returns the normalized encoded length of the text (and not
    the fallback estimate). *)
Theorem run_strategy_exact_count
    (s : Strategy) (text : string) (w w1 : World) (h : Tiktoken P) :
  strategy_loads s (snd (nowMs w)) w1 h ->
  encodes h text ->
  exists r w',
    run_strategy s text w = (Ok r, w') /\
    tokens r = token_count h text.
Proof.
  intros L Hen.
  destruct (token_count_encodes _ _ Hen) as [raw [l [E [N ->]]]].
  revert L. run.
  destruct (performance_now P (ext w)) as [start x0] eqn:T0. run.
  intros L. inversion L as [model w0 w1' h' L'|w0 w1' t L']; subst.
  - cbn [run_strategy]. unfold countTokensWithTiktoken. run.
    rewrite T0. run. rewrite L', E, N.
    destruct (performance_now P (ext w1)) as [t x1].
    eexists _, _. split; reflexivity.
  - cbn [run_strategy]. unfold countTokensWithLlama, llama_encode. run.
    rewrite T0. run. rewrite L', E. cbn [res_bind]. rewrite N.
    destruct (performance_now P (ext w1)) as [t' x1].
    eexists _, _. split; reflexivity.
Qed.

Lemma run_strategy_nonneg (s : Strategy) (text : string) (w : World) :
  exists r w', run_strategy s text w = (Ok r, w') /\ 0 <= tokens r.
Proof.
  pose proof (fallback_positive text) as Hf.
  destruct s as [model|]; unfold run_strategy.
  - unfold countTokensWithTiktoken. run.
    destruct (performance_now P (ext w)) as [start x0]. run.
    destruct (loadTiktoken model (set_ext x0 w)) as [[h|e] w1];
      [destruct (encode P h text) as [raw|e];
       [destruct (normalizeEncodeResult_ok raw) as [l ->]|]|];
      destruct (performance_now P (ext w1)) as [t x1]; run;
      eexists _, _; (split; [reflexivity|]); cbn [tokens];
      try apply array_length_nonneg; lia.
  - unfold countTokensWithLlama, llama_encode. run.
    destruct (performance_now P (ext w)) as [start x0]. run.
    destruct (loadLlamaTokenizer (set_ext x0 w)) as [[tk|e] w1];
      [destruct (encode P (llama_encoding tk) text) as [raw|e];
       cbn [res_bind];
       [destruct (normalizeEncodeResult_ok raw) as [l ->]|]|];
      destruct (performance_now P (ext w1)) as [t x1]; run;
      eexists _, _; (split; [reflexivity|]); cbn [tokens];
      try apply array_length_nonneg; lia.
Qed.

(** X7: [countTokensAuto] (lines 185-197) never throws, whatever the
    text and the identifier, and the count it returns is never
    negative. *)
Theorem countTokensAuto_never_throws (text model : string) (w : World) :
  exists r w',
    countTokensAuto text model w = (Ok r, w') /\ 0 <= tokens r.
Proof.
  destruct (dispatch_total model) as [s D].
  destruct (run_strategy_nonneg s text (snd (nowMs w))) as [res [w1 [R N]]].
  unfold countTokensAuto. revert R. run.
  destruct (performance_now P (ext w)) as [start x0]. run.
  change OPENAI_PREFIXES with openai_family.
  change LLAMA_PREFIXES with llama_family.
  rewrite (dispatch_branch _ _ text D). intros ->.
  destruct (performance_now P (ext w1)) as [t x1].
  eexists _, _. split; [reflexivity|exact N].
Qed.

Lemma Map_get_app_old {V} (k : string) (v : V) (m m' : list (string * V)) :
  Map_get k m = Some v -> Map_get k (m ++ m')%list = Some v.
Proof.
  induction m as [|[k' v'] m IH]; simpl; [discriminate|].
  destruct (String.eqb k k'); [trivial|exact IH].
Qed.

Lemma loadTiktoken_persists
    (m k : string) (entry : TiktokenCacheEntry) (w : World) :
  Map_get k (tiktokenCache w) = Some entry ->
  Map_get k (tiktokenCache (snd (loadTiktoken m w))) = Some entry.
Proof.
  intros H. destruct (loadTiktoken m w) as [r w'] eqn:L.
  destruct (loadTiktoken_caches _ _ _ _ L) as [_ C]. cbn [snd]. rewrite C.
  destruct (Map_has (toLowerCase m) (tiktokenCache w)); [exact H|].
  destruct r as [h|e]; [|exact H]. now apply Map_get_app_old.
Qed.

(** The world after the exact strategy is the world after its
    [loadTiktoken], but for the clock. *)
Lemma countTokensWithTiktoken_world (text m : string) (w : World) :
  exists x,
    snd (countTokensWithTiktoken text m w) =
    set_ext x (snd (loadTiktoken m (snd (nowMs w)))).
Proof.
  unfold countTokensWithTiktoken. run.
  destruct (performance_now P (ext w)) as [start x0]. run.
  destruct (loadTiktoken m (set_ext x0 w)) as [[h|e] w1];
    [destruct (encode P h text) as [raw|e];
     [destruct (normalizeEncodeResult_ok raw) as [l ->]|]|];
    destruct (performance_now P (ext w1)) as [t x1]; run;
    eexists; reflexivity.
Qed.

Lemma countTokensWithLlama_world (text : string) (w : World) :
  exists x,
    snd (countTokensWithLlama text w) =
    set_ext x (snd (loadLlamaTokenizer (snd (nowMs w)))).
Proof.
  unfold countTokensWithLlama, llama_encode. run.
  destruct (performance_now P (ext w)) as [start x0]. run.
  destruct (loadLlamaTokenizer (set_ext x0 w)) as [[tk|e] w1];
    [destruct (encode P (llama_encoding tk) text) as [raw|e];
     cbn [res_bind];
     [destruct (normalizeEncodeResult_ok raw) as [l ->]|]|];
    destruct (performance_now P (ext w1)) as [t x1]; run;
    eexists; reflexivity.
Qed.

(** The world after the router is the world after the strategy it
    dispatches to, but for the clock. *)
Lemma countTokensAuto_world (text m : string) (s : Strategy) (w : World) :
  dispatch m s ->
  exists x,
    snd (countTokensAuto text m w) =
    set_ext x (snd (run_strategy s text (snd (nowMs w)))).
Proof.
  intros D.
  destruct (run_strategy_returns s text (snd (nowMs w))) as [res [w1 R]].
  rewrite R. unfold countTokensAuto. revert R. run.
  destruct (performance_now P (ext w)) as [start x0]. run.
  change OPENAI_PREFIXES with openai_family.
  change LLAMA_PREFIXES with llama_family.
  rewrite (dispatch_branch _ _ text D). intros ->.
  destruct (performance_now P (ext w1)) as [t x1]. eexists; reflexivity.
Qed.

Lemma nowMs_caches (w : World) :
  tiktokenCache (snd (nowMs w)) = tiktokenCache w /\
  llamaTokenizerCache (snd (nowMs w)) = llamaTokenizerCache w.
Proof. run. now destruct (performance_now P (ext w)). Qed.

Lemma loadTiktoken_llama (m : string) (w : World) :
  llamaTokenizerCache (snd (loadTiktoken m w)) = llamaTokenizerCache w.
Proof.
  destruct (loadTiktoken m w) as [r w'] eqn:L.
  now destruct (loadTiktoken_caches _ _ _ _ L).
Qed.

(** X8: an entry of the encoder cache stays as it is (same encoder,
    same identifier, same timestamp) through [loadTiktoken], both
    counting strategies, [countTokensAuto], [countChatTokens] and
    [assertEncodeDecodeRoundtrip], for any arguments: nothing but
    [clearTokenizerCache] replaces or evicts an entry. *)
Theorem cache_entries_persist
    (k : string) (entry : TiktokenCacheEntry) (w : World) :
  Map_get k (tiktokenCache w) = Some entry ->
  (forall m,
      Map_get k (tiktokenCache (snd (loadTiktoken m w))) = Some entry) /\
  (forall s text,
      Map_get k (tiktokenCache (snd (run_strategy s text w))) = Some entry) /\
  (forall text m,
      Map_get k (tiktokenCache (snd (countTokensAuto text m w)))
      = Some entry) /\
  (forall msgs m,
      Map_get k (tiktokenCache (snd (countChatTokens msgs m w)))
      = Some entry) /\
  (forall text m,
      Map_get k (tiktokenCache (snd (assertEncodeDecodeRoundtrip text m w)))
      = Some entry).
Proof.
  intros H.
  assert (Hs : forall s text w0,
             Map_get k (tiktokenCache w0) = Some entry ->
             Map_get k (tiktokenCache (snd (run_strategy s text w0)))
             = Some entry).
  { intros [m|] text w0 H0; cbn [run_strategy].
    - rewrite countTokensWithTiktoken_cache.
      apply loadTiktoken_persists. now rewrite (proj1 (nowMs_caches w0)).
    - now rewrite countTokensWithLlama_cache. }
  split; [|split; [|split; [|split]]].
  - intros m. now apply loadTiktoken_persists.
  - intros s text. now apply Hs.
  - intros text m. destruct (dispatch_total m) as [s D].
    destruct (countTokensAuto_world text m s w D) as [x ->].
    cbn [set_ext tiktokenCache]. apply Hs.
    now rewrite (proj1 (nowMs_caches w)).
  - intros msgs m. rewrite countChatTokens_cache.
    now apply loadTiktoken_persists.
  - intros text m. rewrite assertEncodeDecodeRoundtrip_cache.
    now apply loadTiktoken_persists.
Qed.

(** X10: the two caches are kept apart.  The approximate strategy never
    touches the encoder cache, and [loadTiktoken], the exact strategy,
    [countChatTokens] and [assertEncodeDecodeRoundtrip] never touch the
    Llama tokenizer. *)
Theorem strategies_keep_caches_apart (text : string) (w : World) :
  tiktokenCache (snd (countTokensWithLlama text w)) = tiktokenCache w /\
  (forall m,
      llamaTokenizerCache (snd (loadTiktoken m w))
      = llamaTokenizerCache w) /\
  (forall m,
      llamaTokenizerCache (snd (countTokensWithTiktoken text m w))
      = llamaTokenizerCache w) /\
  (forall msgs m,
      llamaTokenizerCache (snd (countChatTokens msgs m w))
      = llamaTokenizerCache w) /\
  (forall m,
      llamaTokenizerCache (snd (assertEncodeDecodeRoundtrip text m w))
      = llamaTokenizerCache w).
Proof.
  split; [apply countTokensWithLlama_cache|].
  split; [intros m; apply loadTiktoken_llama|].
  split; [|split].
  - intros m. destruct (countTokensWithTiktoken_world text m w) as [x ->].
    cbn [set_ext llamaTokenizerCache].
    rewrite loadTiktoken_llama. apply nowMs_caches.
  - intros msgs m. rewrite countChatTokens_cache. apply loadTiktoken_llama.
  - intros m. rewrite assertEncodeDecodeRoundtrip_cache.
    apply loadTiktoken_llama.
Qed.

(** X11: [countTokensAuto] adds at most one key to the encoder cache.
    When it dispatches to the exact strategy on an identifier, the cache
    is either left as it was or extended by the lower-cased form of that
    identifier (so "gpt-4", and not the identifier given, for an
    identifier of neither family); when it dispatches to the approximate
    strategy the cache is left as it was. *)
Theorem countTokensAuto_cache_keys
    (text model : string) (s : Strategy) (w : World) :
  dispatch model s ->
  match s with
  | Exact m =>
      tiktokenCache (snd (countTokensAuto text model w)) = tiktokenCache w \/
      (Map_has (toLowerCase m) (tiktokenCache w) = false /\
       Map_keys (tiktokenCache (snd (countTokensAuto text model w))) =
       (Map_keys (tiktokenCache w) ++ [toLowerCase m])%list)
  | Approximate =>
      tiktokenCache (snd (countTokensAuto text model w)) = tiktokenCache w
  end.
Proof.
  intros D. destruct (countTokensAuto_world text model s w D) as [x ->].
  cbn [set_ext tiktokenCache].
  destruct (nowMs_caches w) as [N _].
  destruct s as [m|]; cbn [run_strategy].
  - rewrite countTokensWithTiktoken_cache.
    destruct (loadTiktoken m (snd (nowMs (snd (nowMs w))))) as [r w'] eqn:L.
    destruct (loadTiktoken_caches _ _ _ _ L) as [_ C]. cbn [snd].
    rewrite C, (proj1 (nowMs_caches (snd (nowMs w)))), N.
    destruct (Map_has (toLowerCase m) (tiktokenCache w)); [now left|].
    destruct r as [h|e]; [|now left].
    right. split; [reflexivity|]. unfold Map_keys. now rewrite map_app.
  - now rewrite countTokensWithLlama_cache.
Qed.

(** X12: every identifier whose lower-cased form is a key of
    [ENCODING_MAP] is dispatched by the router to the exact strategy on
    that identifier, where [loadTiktoken] resolves it to the scheme the
    table declares. *)
Theorem table_models_route_exact (m : string) (e : TiktokenEncoding) :
  own_property (toLowerCase m) ENCODING_MAP = Some e ->
  dispatch m (Exact m) /\ encodingName m = PEncoding e.
Proof.
  intros H. split; [|now apply encodingName_table].
  apply dispatch_openai, existsb_includes.
  apply own_property_In in H. unfold ENCODING_MAP in H. simpl in H.
  repeat (destruct H as [[= <- _]|H]; [reflexivity|]).
  destruct H.
Qed.

Lemma chat_loop_lower_bound (h : Tiktoken P) (messages : list ChatMessage) :
  forall total n,
    chat_loop h messages total = Ok n ->
    total + 4 * Z.of_nat (List.length messages) <= n.
Proof.
  induction messages as [|m messages IH]; intros total n; cbn [chat_loop].
  - intros [= <-]. simpl. lia.
  - destruct (encode P h (role m)) as [raw|e]; [|discriminate].
    cbn [res_bind]. destruct (normalizeEncodeResult_ok raw) as [l ->].
    cbn [res_bind].
    destruct (encode P h (content m)) as [raw'|e]; [|discriminate].
    cbn [res_bind]. destruct (normalizeEncodeResult_ok raw') as [l' ->].
    cbn [res_bind]. intros H. apply IH in H.
    pose proof (array_length_nonneg l). pose proof (array_length_nonneg l').
    cbn [List.length]. lia.
Qed.

(** X13: a count returned by [countChatTokens] (lines 204-213) is at
    least 3 plus 4 for each message; for no message at all it is 3. *)
Theorem countChatTokens_lower_bound
    (messages : list ChatMessage) (model : option string) (w w1 : World)
    (n : Z) :
  countChatTokens messages model w = (Ok n, w1) ->
  3 + 4 * Z.of_nat (List.length messages) <= n /\
  (messages = [] -> n = 3).
Proof.
  unfold countChatTokens. run.
  destruct (loadTiktoken (default_arg "gpt-4" model) w) as [[h|e] w'];
    [|discriminate].
  destruct (chat_loop h messages 3) as [n'|e] eqn:C; [|discriminate].
  intros [= <- <-]. split.
  - now apply (chat_loop_lower_bound h).
  - intros ->. cbn [chat_loop] in C. congruence.
Qed.

(** X14: [assertEncodeDecodeRoundtrip] (lines 249-261) never throws; it
    answers false when the encoder cannot be loaded and when the encoder
    throws on the text; and it leaves the world that its [loadTiktoken]
    leaves. *)
Theorem assertEncodeDecodeRoundtrip_never_throws
    (text : string) (model : option string) (w : World) :
  exists b,
    assertEncodeDecodeRoundtrip text model w =
      (Ok b, snd (loadTiktoken (default_arg "gpt-4" model) w)) /\
    (forall e,
        fst (loadTiktoken (default_arg "gpt-4" model) w) = Err e ->
        b = false) /\
    (forall h e,
        fst (loadTiktoken (default_arg "gpt-4" model) w) = Ok h ->
        encode P h text = Err e ->
        b = false).
Proof.
  unfold assertEncodeDecodeRoundtrip. run.
  destruct (loadTiktoken (default_arg "gpt-4" model) w) as [[h|e] w1];
    cbn [fst snd].
  - destruct (encode P h text) as [raw|e] eqn:E.
    + destruct (normalizeEncodeResult_ok raw) as [arr ->].
      destruct (Uint32Array_new (ToNumber P) arr) as [u|e];
        [destruct (decode P h u) as [d|e];
         [destruct (normalizeDecodeResult_ok d) as [s ->]|]|];
        eexists; (split; [reflexivity|]); split;
        try discriminate; intros h' e' [= <-]; rewrite E; discriminate.
    + exists false. repeat split.
  - exists false. repeat split.
Qed.

(* ------------------------------------------------------------------ *)
(** ** File names *)

Lemma split_nonempty (s : string) (sep : ascii) : split s sep <> [].
Proof.
  destruct s as [|c r]; cbn [split]; [discriminate|].
  destruct (Ascii.eqb c sep); [discriminate|].
  destruct (split r sep); discriminate.
Qed.

Lemma split_sep_app (a b : string) (sep : ascii) :
  split (a ++ String sep b) sep = (split a sep ++ split b sep)%list.
Proof.
  induction a as [|c a IH]; cbn [append split].
  - now rewrite Ascii.eqb_refl.
  - destruct (Ascii.eqb c sep); [now rewrite IH|].
    rewrite IH. pose proof (split_nonempty a sep).
    destruct (split a sep) as [|seg segs]; [congruence|reflexivity].
Qed.

Lemma split_no_sep (a : string) (sep : ascii) :
  ~ occurs_in (String sep "") a -> split a sep = [a].
Proof.
  induction a as [|c a IH]; intros Hno; cbn [split]; [reflexivity|].
  destruct (Ascii.eqb_spec c sep) as [->|Hc].
  - exfalso. apply Hno. exists "", a. reflexivity.
  - rewrite IH; [reflexivity|].
    intros [before [after H]]. apply Hno.
    exists (String c before), after. simpl. now rewrite H.
Qed.

Lemma Array_pop_app {A} (l1 l2 : list A) :
  l2 <> [] -> Array_pop (l1 ++ l2)%list = Array_pop l2.
Proof.
  intros H. induction l1 as [|x l1 IH]; [reflexivity|].
  cbn [app Array_pop]. rewrite IH.
  destruct (l1 ++ l2)%list eqn:E; [|reflexivity].
  apply app_eq_nil in E. destruct E. congruence.
Qed.

Lemma split_dot_app (a b : string) :
  split (a ++ "." ++ b) "." = (split a "." ++ split b ".")%list.
Proof. exact (split_sep_app a b "."). Qed.

(** The extension of [base.ext], and of a name without a dot. *)
Lemma file_extension_dot (base ext : string) :
  ~ occurs_in "." ext ->
  file_extension (base ++ "." ++ ext) = Some (toLowerCase ext) /\
  file_extension ext = Some (toLowerCase ext).
Proof.
  intros Hno. unfold file_extension.
  rewrite split_dot_app, Array_pop_app by apply split_nonempty.
  now rewrite (split_no_sep _ _ Hno).
Qed.

(* ------------------------------------------------------------------ *)
(** ** Format detection and analysis *)

Lemma detectFormat_extension (content filename x : string) (f : FileFormat) :
  file_extension filename = Some x ->
  extension_format x = Some f ->
  detectFormat content filename = f.
Proof.
  intros E. unfold extension_format, detectFormat. rewrite E.
  cbn [ext_is].
  destruct (String.eqb x "json"); [now intros [= <-]|].
  destruct (String.eqb x "yaml"); [now intros [= <-]|].
  destruct (String.eqb x "yml"); [now intros [= <-]|].
  destruct (String.eqb x "toml"); [now intros [= <-]|].
  destruct (String.eqb x "xml"); [now intros [= <-]|].
  discriminate.
Qed.

(** X15: [detectFormat] (lines 33-69) goes by the extension, in any
    letter case, before it looks at the content: a file [base.ext] whose
    extension is json, yaml, yml, toml or xml has that format whatever it
    contains, and so has a file named by such a word alone, without a
    dot. *)
Theorem detectFormat_by_extension
    (content base ext : string) (f : FileFormat) :
  ~ occurs_in "." ext ->
  extension_format (toLowerCase ext) = Some f ->
  detectFormat content (base ++ "." ++ ext) = f /\
  detectFormat content ext = f.
Proof.
  intros Hno Hf. destruct (file_extension_dot base ext Hno) as [E1 E2].
  split; eapply detectFormat_extension; eassumption.
Qed.

Lemma extension_unrecognised (extension : option string) :
  (forall x, extension = Some x -> extension_format x = None) <->
  ext_is extension "json"
  || (ext_is extension "yaml" || ext_is extension "yml")
  || ext_is extension "toml" || ext_is extension "xml" = false.
Proof.
  destruct extension as [x|]; cbn [ext_is].
  - unfold extension_format. split.
    + intros H. specialize (H x eq_refl). revert H.
      destruct (String.eqb x "json"), (String.eqb x "yaml"),
        (String.eqb x "yml"), (String.eqb x "toml"), (String.eqb x "xml");
        cbn; congruence.
    + intros H x' [= <-]. revert H.
      destruct (String.eqb x "json"), (String.eqb x "yaml"),
        (String.eqb x "yml"), (String.eqb x "toml"), (String.eqb x "xml");
        cbn; congruence.
  - split; [reflexivity|discriminate].
Qed.

(** X16: [detectFormat] never answers 'unknown', and it answers 'text'
    exactly when the extension names no format and the content is
    rejected by the JSON, the YAML and the TOML parser and is not parsed
    as XML. *)
Theorem detectFormat_text (content filename : string) :
  detectFormat content filename <> FUnknown /\
  (detectFormat content filename = FText <->
   (forall x, file_extension filename = Some x -> extension_format x = None) /\
   (exists e, JSON_parse Fmt content = Err e) /\
   (exists e, yaml_load Fmt content = Err e) /\
   (exists e, TOML_parse Fmt content = Err e) /\
   (forall d, parseString Fmt content <> XmlParsed d)).
Proof.
  rewrite extension_unrecognised. unfold detectFormat.
  destruct (ext_is (file_extension filename) "json"),
    (ext_is (file_extension filename) "yaml"),
    (ext_is (file_extension filename) "yml"),
    (ext_is (file_extension filename) "toml"),
    (ext_is (file_extension filename) "xml");
    cbn [orb];
    destruct (JSON_parse Fmt content) as [?|e1],
      (yaml_load Fmt content) as [?|e2],
      (TOML_parse Fmt content) as [?|e3],
      (parseString Fmt content) as [d|e4|e4];
    (split; [discriminate|]);
    (split;
     [ try discriminate; intros _; repeat split; eauto; discriminate
     | intros [Hx [[? Hj] [[? Hy] [[? Ht] Hd]]]];
       try discriminate; try reflexivity; now destruct (Hd d) ]).
Qed.

Lemma convertToFormats_entries (data : Data Fmt) :
  convertToFormats data =
  [ ("JSON (Minified)",
     match JSON_stringify Fmt data with
     | Ok s => s
     | Err _ => Some "Error converting to JSON"
     end);
    ("JSON (Pretty)",
     match JSON_stringify_pretty Fmt data with
     | Ok s => s
     | Err _ => Some "Error converting to JSON"
     end);
    ("YAML",
     match yaml_dump Fmt data with
     | Ok s => Some s
     | Err _ => Some "Error converting to YAML"
     end);
    ("TOML",
     match TOML_stringify Fmt data with
     | Ok s => Some s
     | Err _ =>
         Some "Error converting to TOML (complex structure not supported)"
     end) ].
Proof. reflexivity. Qed.

Lemma analyze_loop_rows (entries : list (string * option string)) :
  Forall (fun kv => snd kv <> None) entries ->
  forall rows w,
  exists rows' w',
    analyze_loop entries rows w = (Ok (rows ++ rows')%list, w') /\
    map fr_format rows' = map fst entries /\
    map (fun r => Some (fr_content r)) rows' = map snd entries /\
    Forall (fun r => fr_tokens r = estimateTokens (fr_content r) /\
                     fr_cost r = estimateCost (fr_tokens r)) rows' /\
    tiktokenCache w' = tiktokenCache w /\
    llamaTokenizerCache w' = llamaTokenizerCache w.
Proof.
  induction 1 as [|[name [c|]] entries Hc _ IH]; intros rows w;
    cbn [analyze_loop].
  - exists [], w. rewrite app_nil_r. repeat split. constructor.
  - run. destruct (performance_now P (ext w)) as [t0 x0]. run.
    destruct (performance_now P x0) as [t1 x1]. run.
    match goal with
    | |- context [analyze_loop entries ?rs ?w0] =>
        destruct (IH rs w0) as [rows' [w' [E [Hf [Hs [Ht [C1 C2]]]]]]]
    end.
    eexists (_ :: rows'), w'. rewrite E, <- app_assoc.
    split; [reflexivity|]. cbn [map fst snd fr_format fr_content].
    rewrite Hf, Hs. repeat split; trivial.
    constructor; [split; reflexivity|exact Ht].
  - now destruct Hc.
Qed.

(** X17: when the content parses in the detected format and has JSON
    text, [analyzeFile] (lines 131-170) returns four rows, named JSON
    (Minified), JSON (Pretty), YAML and TOML in this order; the tokens
    of each row are the estimate for its content and its cost is the
    estimate for these tokens; [originalTokens] is the estimate for the
    file's text; the detected format is that of [detectFormat]; and the
    tokenizer caches are as they were. *)
Theorem analyzeFile_rows (file : File) (w : World) (d : Data Fmt) :
  parseContent (file_text file)
    (detectFormat (file_text file) (file_name file)) = Ok d ->
  JSON_stringify Fmt d <> Ok None ->
  JSON_stringify_pretty Fmt d <> Ok None ->
  exists r w',
    analyzeFile file w = (Ok r, w') /\
    detectedFormat r = detectFormat (file_text file) (file_name file) /\
    originalTokens r = estimateTokens (file_text file) /\
    map fr_format (results r) = format_names /\
    Forall (fun row => fr_tokens row = estimateTokens (fr_content row) /\
                       fr_cost row = estimateCost (fr_tokens row))
      (results r) /\
    tiktokenCache w' = tiktokenCache w /\
    llamaTokenizerCache w' = llamaTokenizerCache w.
Proof.
  intros Hp Hj Hjp. unfold analyzeFile. run.
  destruct (performance_now P (ext w)) as [t0 x0]. run. rewrite Hp.
  assert (HF : Forall (fun kv : string * option string => snd kv <> None)
                 (convertToFormats d)).
  { rewrite convertToFormats_entries. repeat constructor; cbn [snd].
    - destruct (JSON_stringify Fmt d) as [[s|]|e]; congruence.
    - destruct (JSON_stringify_pretty Fmt d) as [[s|]|e]; congruence.
    - destruct (yaml_dump Fmt d); discriminate.
    - destruct (TOML_stringify Fmt d); discriminate. }
  destruct (analyze_loop_rows _ HF [] (set_ext x0 w))
    as [rows [w1 [E [Hf [_ [Ht [C1 C2]]]]]]].
  rewrite E. cbn [app].
  destruct (performance_now P (ext w1)) as [t1 x1].
  eexists _, _. split; [reflexivity|].
  cbn [detectedFormat originalTokens results tiktokenCache
       llamaTokenizerCache].
  repeat split; trivial.
Qed.

(** X18: a file whose extension names a format is parsed in that format
    only: when that parser rejects the content, [analyzeFile] fails with
    the parser's error, whatever the other parsers would make of the
    content, and the tokenizer caches are as they were. *)
Theorem analyzeFile_parse_failure
    (file : File) (w : World) (x : string) (f : FileFormat) (e : Exn) :
  file_extension (file_name file) = Some x ->
  extension_format x = Some f ->
  parseContent (file_text file) f = Err e ->
  exists w',
    analyzeFile file w = (Err e, w') /\
    tiktokenCache w' = tiktokenCache w /\
    llamaTokenizerCache w' = llamaTokenizerCache w.
Proof.
  intros Hx Hf Hp. unfold analyzeFile. run.
  destruct (performance_now P (ext w)) as [t0 x0]. run.
  rewrite (detectFormat_extension _ _ _ _ Hx Hf), Hp.
  eexists. repeat split.
Qed.

(** X19: when the content parses to a value for which [JSON.stringify]
    returns [undefined], [convertToFormats] stores [undefined] under
    JSON (Minified) and [analyzeFile] fails with a TypeError, on the
    [length] that [estimateTokens] reads. *)
Theorem analyzeFile_undefined_json (file : File) (w : World) (d : Data Fmt) :
  parseContent (file_text file)
    (detectFormat (file_text file) (file_name file)) = Ok d ->
  JSON_stringify Fmt d = Ok None ->
  Map_get "JSON (Minified)" (convertToFormats d) = Some None /\
  exists w',
    analyzeFile file w =
    (Err (TypeError "Cannot read properties of undefined"), w').
Proof.
  intros Hp Hj. rewrite convertToFormats_entries, Hj.
  split; [reflexivity|].
  unfold analyzeFile. run.
  destruct (performance_now P (ext w)) as [t0 x0]. run. rewrite Hp.
  rewrite convertToFormats_entries, Hj. cbn [analyze_loop]. run.
  destruct (performance_now P x0) as [t1 x1]. eexists. reflexivity.
Qed.

Lemma valid_extension (x : string) :
  mem_string ("." ++ x) validExtensions = true ->
  In x ["json"; "yaml"; "yml"; "toml"; "xml"; "txt"].
Proof.
  unfold mem_string, validExtensions. cbn [existsb].
  change (String.eqb ("." ++ x) ".json") with (String.eqb x "json").
  change (String.eqb ("." ++ x) ".yaml") with (String.eqb x "yaml").
  change (String.eqb ("." ++ x) ".yml") with (String.eqb x "yml").
  change (String.eqb ("." ++ x) ".toml") with (String.eqb x "toml").
  change (String.eqb ("." ++ x) ".xml") with (String.eqb x "xml").
  change (String.eqb ("." ++ x) ".txt") with (String.eqb x "txt").
  destruct (String.eqb_spec x "json") as [->|_]; [simpl; tauto|].
  destruct (String.eqb_spec x "yaml") as [->|_]; [simpl; tauto|].
  destruct (String.eqb_spec x "yml") as [->|_]; [simpl; tauto|].
  destruct (String.eqb_spec x "toml") as [->|_]; [simpl; tauto|].
  destruct (String.eqb_spec x "xml") as [->|_]; [simpl; tauto|].
  destruct (String.eqb_spec x "txt") as [->|_]; [simpl; tauto|].
  discriminate.
Qed.

(** X20: [handleDrop] (FileUpload.tsx lines 13-38) selects a file only
    when no analysis is running; the file is the first of those dropped
    and its lower-cased extension is one of json, yaml, yml, toml, xml
    and txt; unless the extension is txt, [detectFormat] then gives the
    file the format of its extension (json for json, yaml for yaml and
    yml, toml for toml, xml for xml) whatever it contains. *)
Theorem handleDrop_selected
    (isAnalyzing : bool) (files : list File) (file : File) :
  handleDrop isAnalyzing files = DropSelected file ->
  isAnalyzing = false /\
  (exists rest, files = file :: rest) /\
  exists x,
    file_extension (file_name file) = Some x /\
    In x ["json"; "yaml"; "yml"; "toml"; "xml"; "txt"] /\
    (x = "json" ->
     forall content, detectFormat content (file_name file) = FJson) /\
    (x = "yaml" \/ x = "yml" ->
     forall content, detectFormat content (file_name file) = FYaml) /\
    (x = "toml" ->
     forall content, detectFormat content (file_name file) = FToml) /\
    (x = "xml" ->
     forall content, detectFormat content (file_name file) = FXml).
Proof.
  unfold handleDrop. destruct isAnalyzing; [discriminate|].
  destruct files as [|file0 rest]; [discriminate|].
  destruct (file_extension (file_name file0)) as [x|] eqn:E;
    [|discriminate].
  destruct (mem_string ("." ++ x) validExtensions) eqn:V; [|discriminate].
  intros [= <-]. split; [reflexivity|]. split; [now exists rest|].
  exists x. split; [exact E|]. split; [now apply valid_extension|].
  repeat split.
  - intros -> content. now apply (detectFormat_extension _ _ "json").
  - intros [->| ->] content.
    + now apply (detectFormat_extension _ _ "yaml").
    + now apply (detectFormat_extension _ _ "yml").
  - intros -> content. now apply (detectFormat_extension _ _ "toml").
  - intros -> content. now apply (detectFormat_extension _ _ "xml").
Qed.

(* ------------------------------------------------------------------ *)
(** ** Estimates *)

Lemma str_length_append (a b : string) :
  str_length (a ++ b) = str_length a + str_length b.
Proof.
  unfold str_length. induction a as [|c a IH]; cbn [append String.length].
  - lia.
  - lia.
Qed.

Lemma estimateTokens_quarter (text : string) :
  estimateTokens text = (str_length text + 3) / 4.
Proof. apply Qceiling_quarter. Qed.

(** X21: [estimateTokens] (formatUtils.ts lines 23-25) is the ceiling of
    a quarter of the length; it is 0 for the empty text only; and the
    fallback estimate of the tokenizer strategies agrees with it on every
    text but the empty one, where the fallback is 1. *)
Theorem estimateTokens_fallback (text : string) :
  ceiling_of_quarter (str_length text) (estimateTokens text) /\
  (estimateTokens text = 0 <-> text = "") /\
  (text <> "" -> fallback text = estimateTokens text) /\
  fallback "" = 1.
Proof.
  rewrite estimateTokens_quarter. unfold fallback.
  rewrite Qceiling_quarter. unfold ceiling_of_quarter.
  assert (Hlen : str_length text = 0 <-> text = "").
  { unfold str_length. destruct text; cbn [String.length]; split;
      try reflexivity; try discriminate; lia. }
  assert (0 <= str_length text) by (unfold str_length; lia).
  split; [Z.div_mod_to_equations; lia|]. split; [|split].
  - rewrite <- Hlen. split; intros; Z.div_mod_to_equations; lia.
  - intros Hne. assert (str_length text <> 0) by tauto.
    Z.div_mod_to_equations. lia.
  - reflexivity.
Qed.

(** X22: the estimate for a concatenation is at most the sum of the
    estimates of its parts, falls short of it by at most 1, and is at
    least each of them. *)
Theorem estimateTokens_append (a b : string) :
  estimateTokens (a ++ b) <= estimateTokens a + estimateTokens b /\
  estimateTokens a + estimateTokens b - 1 <= estimateTokens (a ++ b) /\
  estimateTokens a <= estimateTokens (a ++ b) /\
  estimateTokens b <= estimateTokens (a ++ b).
Proof.
  rewrite !estimateTokens_quarter, str_length_append.
  assert (0 <= str_length a) by (unfold str_length; lia).
  assert (0 <= str_length b) by (unfold str_length; lia).
  repeat split; Z.div_mod_to_equations; lia.
Qed.

End Tokenizers.

Arguments tokens {P} _.
Arguments timeMs {P} _.
Arguments tiktokenCache {P} _.
Arguments llamaTokenizerCache {P} _.
Arguments ext {P} _.
Arguments encoding {P} _.
Arguments model {P} _.
Arguments loadedAt {P} _.
Arguments cache_inv {P} _.
Arguments encoder_yields {P} _ _ _.
Arguments chars_in_vocabulary {P} _ _.
Arguments encodes {P} _ _.
Arguments fr_format {P Fmt} _.
Arguments fr_content {P Fmt} _.
Arguments fr_tokens {P Fmt} _.
Arguments fr_time {P Fmt} _.
Arguments fr_cost {P Fmt} _.
Arguments detectedFormat {P Fmt} _.
Arguments originalTokens {P Fmt} _.
Arguments results {P Fmt} _.
Arguments totalTime {P Fmt} _.
Arguments llama_encoding {P} _.

(* ------------------------------------------------------------------ *)
(** ** The module on the toy platform *)

Abbreviation user_hi := [ {| role := "user"; content := "hi" |} ].

(** The toy world after "GPT-4" has been loaded. *)
Abbreviation toy_loaded := (snd (loadTiktoken toy "GPT-4" (initial toy 0%nat))).

Example toy_loaded_cache :
  tiktokenCache toy_loaded =
  [("gpt-4", {| encoding := 1%nat : Tiktoken toy; model := "GPT-4";
                loadedAt := 2 |})].
Proof. reflexivity. Qed.

Example countChatTokens_user_hi :
  fst (countChatTokens toy user_hi None (initial toy 0%nat)) =
  Ok (3 + 4 + token_count toy 1%nat "user" + token_count toy 1%nat "hi").
Proof. reflexivity. Qed.

Example countTokensAuto_routes :
  fst (countTokensAuto toy "hello" "gpt-4" (initial toy 0%nat)) =
    Ok {| tokens := 5; timeMs := 6 : Num toy |} /\
  llamaTokenizerCache
    (snd (countTokensAuto toy "hello" "gpt-4" (initial toy 0%nat))) = None /\
  llamaTokenizerCache
    (snd (countTokensAuto toy "hello" "llama-2-7b" (initial toy 0%nat))) <> None.
Proof. repeat split. discriminate. Qed.

Example encodingName_examples :
  encodingName "GPT-4o" = PEncoding o200k_base /\
  encodingName "text-davinci-003" = PEncoding p50k_base /\
  encodingName "claude-3" = PEncoding cl100k_base /\
  encodingName "toString" = PInherited "toString".
Proof. repeat split. Qed.

Example countTokensWithTiktoken_constructor :
  fst (countTokensWithTiktoken toy "hello world" "constructor"
         (initial toy 0%nat)) =
  Ok {| tokens := 3; timeMs := 2 : Num toy |}.
Proof. reflexivity. Qed.

(* ------------------------------------------------------------------ *)
(** ** Instances of the theorems *)

Lemma dispatch_Llama_2_7b : dispatch "Llama-2-7b" Approximate.
Proof.
  apply dispatch_llama.
  - intros H. apply existsb_includes in H. discriminate.
  - apply existsb_includes. reflexivity.
Defined.

Lemma countTokensAuto_dispatch_witness :
  dispatch "Llama-2-7b" Approximate /\
  exists res w1,
    run_strategy toy Approximate "hello"
      (snd (nowMs toy (initial toy 0%nat))) = (Ok res, w1) /\
    countTokensAuto toy "hello" "Llama-2-7b" (initial toy 0%nat) =
      (Ok {| tokens := tokens res;
             timeMs :=
               toFixed2 toy
                 (num_sub toy (fst (performance_now toy (ext w1)))
                    (fst (performance_now toy (ext (initial toy 0%nat))))) |},
       set_ext toy (snd (performance_now toy (ext w1))) w1).
Proof.
  split; [exact dispatch_Llama_2_7b|].
  exact (countTokensAuto_dispatch toy "hello" "Llama-2-7b" Approximate
           (initial toy 0%nat) dispatch_Llama_2_7b).
Defined.

Lemma strategies_fall_back_witness :
  exists r w',
    run_strategy toy (Exact "constructor") "hello world" (initial toy 0%nat)
      = (Ok r, w') /\
    tokens r = 3.
Proof.
  destruct (strategies_fall_back toy (Exact "constructor") "hello world"
              (initial toy 0%nat)) as [r [w' [R F]]].
  exists r, w'. split; [exact R|].
  destruct (F (snd (loadTiktoken toy "constructor"
                      (snd (nowMs toy (initial toy 0%nat))))))
    as [[c [Hc Ht]] _].
  - apply (exact_load_fails toy "hello world" "constructor" _ _
             (Thrown "Error" "Invalid encoding")).
    reflexivity.
  - rewrite Ht. unfold ceiling_of_quarter in Hc.
    change (str_length "hello world") with 11 in Hc. lia.
Defined.


Lemma loadTiktoken_case_insensitive_witness :
  toLowerCase "GPT-4" = toLowerCase "gpt-4" /\
  exists w2,
    loadTiktoken toy "gpt-4" toy_loaded = (Ok 1%nat, w2) /\
    tiktokenCache w2 = tiktokenCache toy_loaded /\
    llamaTokenizerCache w2 = llamaTokenizerCache toy_loaded /\
    entries_for (toLowerCase "GPT-4") (tiktokenCache w2) = 1%nat.
Proof.
  split; [reflexivity|].
  apply (loadTiktoken_case_insensitive toy "GPT-4" "gpt-4"
           (initial toy 0%nat)).
  - reflexivity.
  - constructor.
  - reflexivity.
Defined.

Lemma loadTiktoken_failure_propagates_witness :
  exists w',
    loadTiktoken toy "constructor" (initial toy 0%nat) =
      (Err (Thrown "Error" "Invalid encoding"), w') /\
    tiktokenCache w' = [] /\
    llamaTokenizerCache w' = None.
Proof.
  apply (loadTiktoken_failure_propagates toy "constructor"
           (initial toy 0%nat) _ 1%nat); reflexivity.
Defined.


Lemma toy_loaded_inv : cache_inv toy_loaded.
Proof.
  split.
  - repeat constructor. intros [].
  - repeat constructor.
Defined.

Lemma getCacheStats_reports_witness :
  cache_inv toy_loaded /\
  exists s,
    getCacheStats toy toy_loaded = (Ok s, toy_loaded) /\
    models s = ["gpt-4"] /\
    oldestEntry s = Number 2.
Proof.
  split; [exact toy_loaded_inv|].
  destruct (getCacheStats_reports toy toy_loaded toy_loaded_inv)
    as [s [G [_ [K _]]]].
  exists s. split; [exact G|]. split; [exact K|].
  injection G as <-. reflexivity.
Defined.


Lemma toy_strict_yields_hi :
  encoder_yields (1%nat : Tiktoken toy_strict) "hi" [104; 105].
Proof.
  exists [104; 105]. split; [reflexivity|]. split; [|reflexivity].
  repeat constructor; unfold uint32; lia.
Defined.

Lemma assertEncodeDecodeRoundtrip_decides_witness :
  encoder_yields (1%nat : Tiktoken toy_strict) "hi" [104; 105] /\
  fst (assertEncodeDecodeRoundtrip toy_strict "hi" None
         (initial toy_strict 0%nat)) = Ok true /\
  fst (assertEncodeDecodeRoundtrip toy_strict "<|endoftext|>" None
         (initial toy_strict 0%nat)) = Ok false.
Proof.
  split; [exact toy_strict_yields_hi|]. split.
  - destruct (assertEncodeDecodeRoundtrip_decides toy_strict "hi" None
                (initial toy_strict 0%nat)
                (snd (loadTiktoken toy_strict "gpt-4"
                        (initial toy_strict 0%nat)))
                1%nat eq_refl) as [A _].
    rewrite (A [104; 105] toy_strict_yields_hi). reflexivity.
  - destruct (assertEncodeDecodeRoundtrip_decides toy_strict "<|endoftext|>"
                None (initial toy_strict 0%nat)
                (snd (loadTiktoken toy_strict "gpt-4"
                        (initial toy_strict 0%nat)))
                1%nat eq_refl) as [_ B].
    rewrite (B (Thrown "Error"
                  "The text contains a special token that is not allowed")
               eq_refl).
    reflexivity.
Defined.

(** C9: every character of the special token lies within the vocabulary
    of the encoder that [loadTiktoken] selects for "gpt-4", and yet the
    round-trip check answers false on it: the encoder throws on the text
    as a whole and the check turns the error into false. *)
Lemma assertEncodeDecodeRoundtrip_special_token :
  fst (loadTiktoken toy_strict "gpt-4" (initial toy_strict 0%nat))
    = Ok 1%nat /\
  chars_in_vocabulary (1%nat : Tiktoken toy_strict) "<|endoftext|>" /\
  fst (assertEncodeDecodeRoundtrip toy_strict "<|endoftext|>" None
         (initial toy_strict 0%nat)) = Ok false.
Proof.
  split; [reflexivity|]. split; [|reflexivity].
  unfold chars_in_vocabulary. cbn [list_ascii_of_string].
  repeat (constructor;
          [eexists; split; [reflexivity|];
           split; [repeat constructor; unfold uint32; lia|reflexivity]|]).
  constructor.
Qed.

(* ------------------------------------------------------------------ *)
(** ** Instances of the further properties *)

Lemma toy_yields_hi :
  encoder_yields (1%nat : Tiktoken toy) "hi" [104; 105].
Proof.
  exists [104; 105]. split; [reflexivity|]. split; [|reflexivity].
  repeat constructor; unfold uint32; lia.
Defined.

Lemma llama_decode_encode_witness :
  encoder_yields (1%nat : Tiktoken toy) "hi" [104; 105] /\
  exists toks,
    llama_encode toy {| llama_encoding := 1%nat : Tiktoken toy |} "hi"
      = Ok toks /\
    llama_decode toy {| llama_encoding := 1%nat : Tiktoken toy |} toks
      = Ok "hi".
Proof.
  split; [exact toy_yields_hi|].
  exact (llama_decode_encode toy {| llama_encoding := 1%nat : Tiktoken toy |}
           "hi" [104; 105] toy_yields_hi).
Defined.

Lemma loadLlamaTokenizer_singleton_witness :
  exists w1,
    loadLlamaTokenizer toy (initial toy 0%nat) =
      (Ok {| llama_encoding := 0%nat : Tiktoken toy |}, w1) /\
    llamaTokenizerCache w1 = Some {| llama_encoding := 0%nat : Tiktoken toy |} /\
    loadLlamaTokenizer toy w1 =
      (Ok {| llama_encoding := 0%nat : Tiktoken toy |}, w1).
Proof.
  exists (snd (loadLlamaTokenizer toy (initial toy 0%nat))).
  split; [reflexivity|].
  destruct (loadLlamaTokenizer_singleton toy (initial toy 0%nat)
              (snd (loadLlamaTokenizer toy (initial toy 0%nat)))
              {| llama_encoding := 0%nat : Tiktoken toy |} eq_refl)
    as [S [L _]].
  split; [exact S|exact L].
Defined.

Lemma loadLlamaTokenizer_failure_witness :
  exists w1,
    loadLlamaTokenizer toy_flaky (initial toy_flaky 0%nat) =
      (Err (Thrown "Error" "tiktoken: WASM binary not initialized"), w1) /\
    llamaTokenizerCache w1 = None /\
    exists w2,
      loadLlamaTokenizer toy_flaky w1 =
        (Ok {| llama_encoding := 1%nat : Tiktoken toy_flaky |}, w2).
Proof.
  destruct (loadLlamaTokenizer_failure toy_flaky (initial toy_flaky 0%nat)
              (Thrown "Error" "tiktoken: WASM binary not initialized")
              1%nat eq_refl eq_refl) as [w1 [L [N [_ R]]]].
  exists w1. split; [exact L|]. split; [exact N|].
  injection L as <-.
  destruct (R 1%nat 2%nat eq_refl) as [w2 [L2 _]].
  exists w2. exact L2.
Defined.

Lemma run_strategy_exact_count_witness :
  exists r w',
    run_strategy toy (Exact "gpt-4") "hello" (initial toy 0%nat) = (Ok r, w') /\
    tokens r = 5.
Proof.
  destruct (run_strategy_exact_count toy (Exact "gpt-4") "hello"
              (initial toy 0%nat)
              (snd (loadTiktoken toy "gpt-4"
                      (snd (nowMs toy (initial toy 0%nat)))))
              2%nat) as [r [w' [R T]]].
  - apply exact_loads. reflexivity.
  - eexists. reflexivity.
  - exists r, w'. split; [exact R|]. rewrite T. reflexivity.
Defined.

Lemma cache_entries_persist_witness :
  Map_get "gpt-4"
    (tiktokenCache
       (snd (countTokensAuto toy "hello" "GPT-4o" toy_loaded))) =
  Some {| encoding := 1%nat : Tiktoken toy; model := "GPT-4"; loadedAt := 2 |}.
Proof.
  destruct (cache_entries_persist toy "gpt-4"
              {| encoding := 1%nat : Tiktoken toy; model := "GPT-4";
                 loadedAt := 2 |} toy_loaded eq_refl) as [_ [_ [A _]]].
  exact (A "hello" "GPT-4o").
Defined.

Lemma toy_loaded_reachable : reachable toy toy_loaded.
Proof. apply reach_loadTiktoken, reach_initial. Defined.

Lemma reachable_cache_inv_witness :
  reachable toy toy_loaded /\ cache_inv toy_loaded.
Proof.
  split; [exact toy_loaded_reachable|].
  exact (reachable_cache_inv toy toy_loaded toy_loaded_reachable).
Defined.

Lemma dispatch_claude_3 : dispatch "claude-3" (Exact "gpt-4").
Proof.
  apply dispatch_default; intros H; apply existsb_includes in H;
    discriminate.
Defined.

Lemma countTokensAuto_cache_keys_witness :
  dispatch "claude-3" (Exact "gpt-4") /\
  Map_keys (tiktokenCache
              (snd (countTokensAuto toy "hello" "claude-3"
                      (initial toy 0%nat)))) = ["gpt-4"].
Proof.
  split; [exact dispatch_claude_3|].
  destruct (countTokensAuto_cache_keys toy "hello" "claude-3" (Exact "gpt-4")
              (initial toy 0%nat) dispatch_claude_3) as [C|[_ K]].
  - discriminate C.
  - exact K.
Defined.

Lemma table_models_route_exact_witness :
  own_property (toLowerCase "GPT-4o") ENCODING_MAP = Some o200k_base /\
  dispatch "GPT-4o" (Exact "GPT-4o") /\
  encodingName "GPT-4o" = PEncoding o200k_base.
Proof.
  split; [reflexivity|].
  exact (table_models_route_exact "GPT-4o" o200k_base eq_refl).
Defined.

Lemma countChatTokens_lower_bound_witness :
  3 + 4 * Z.of_nat (List.length user_hi) <= 13.
Proof.
  exact (proj1 (countChatTokens_lower_bound toy user_hi None
                  (initial toy 0%nat)
                  (snd (countChatTokens toy user_hi None (initial toy 0%nat)))
                  13 eq_refl)).
Defined.

Lemma assertEncodeDecodeRoundtrip_never_throws_witness :
  fst (assertEncodeDecodeRoundtrip toy "hi" (Some "constructor")
         (initial toy 0%nat)) = Ok false.
Proof.
  destruct (assertEncodeDecodeRoundtrip_never_throws toy "hi"
              (Some "constructor") (initial toy 0%nat)) as [b [A [L _]]].
  rewrite A, (L (Thrown "Error" "Invalid encoding") eq_refl). reflexivity.
Defined.

Lemma no_dot_JSON : ~ occurs_in "." "JSON".
Proof. intros H. apply includes_occurs in H. discriminate. Defined.

Lemma detectFormat_by_extension_witness :
  detectFormat toy_formats "a: 1" "data.JSON" = FJson /\
  detectFormat toy_formats "a: 1" "JSON" = FJson.
Proof.
  exact (detectFormat_by_extension toy_formats "a: 1" "data" "JSON" FJson
           no_dot_JSON eq_refl).
Defined.

Lemma analyzeFile_rows_witness :
  exists r w',
    analyzeFile toy toy_formats
      {| file_name := "notes.txt"; file_text := "{a}" |} (initial toy 0%nat)
      = (Ok r, w') /\
    detectedFormat r = FJson /\
    originalTokens r = 1 /\
    map fr_format (results r) = format_names.
Proof.
  destruct (analyzeFile_rows toy toy_formats
              {| file_name := "notes.txt"; file_text := "{a}" |}
              (initial toy 0%nat) "{a}" eq_refl)
    as [r [w' [A [D [O [N _]]]]]]; try discriminate.
  exists r, w'. split; [exact A|]. split; [exact D|]. split; [exact O|exact N].
Defined.

Lemma analyzeFile_parse_failure_witness :
  yaml_load toy_formats "a: 1" = Ok "a: 1" /\
  exists w',
    analyzeFile toy toy_formats
      {| file_name := "data.json"; file_text := "a: 1" |} (initial toy 0%nat)
    = (Err (Thrown "SyntaxError" "Unexpected token"), w').
Proof.
  split; [reflexivity|].
  destruct (analyzeFile_parse_failure toy toy_formats
              {| file_name := "data.json"; file_text := "a: 1" |}
              (initial toy 0%nat) "json" FJson
              (Thrown "SyntaxError" "Unexpected token")
              eq_refl eq_refl eq_refl) as [w' [A _]].
  exists w'. exact A.
Defined.

Lemma analyzeFile_undefined_json_witness :
  exists w',
    analyzeFile toy toy_formats
      {| file_name := "empty.yaml"; file_text := "" |} (initial toy 0%nat)
    = (Err (TypeError "Cannot read properties of undefined"), w').
Proof.
  exact (proj2 (analyzeFile_undefined_json toy toy_formats
                  {| file_name := "empty.yaml"; file_text := "" |}
                  (initial toy 0%nat) "" eq_refl eq_refl)).
Defined.

Lemma handleDrop_selected_witness :
  handleDrop false
    [ {| file_name := "Config.YML"; file_text := "a: 1" |};
      {| file_name := "other.exe"; file_text := "" |} ]
  = DropSelected {| file_name := "Config.YML"; file_text := "a: 1" |} /\
  forall content, detectFormat toy_formats content "Config.YML" = FYaml.
Proof.
  split; [reflexivity|].
  destruct (handleDrop_selected toy_formats false
              [ {| file_name := "Config.YML"; file_text := "a: 1" |};
                {| file_name := "other.exe"; file_text := "" |} ]
              {| file_name := "Config.YML"; file_text := "a: 1" |} eq_refl)
    as [_ [_ [x [E [_ [_ [Y _]]]]]]].
  injection E as <-. apply Y. right. reflexivity.
Defined.

Lemma estimateTokens_fallback_witness :
  fallback "hello" = estimateTokens "hello" /\ estimateTokens "hello" = 2.
Proof.
  destruct (estimateTokens_fallback "hello") as [_ [_ [A _]]].
  split; [apply A; discriminate|reflexivity].
Defined.
